(** * Conversation store and message exchange: a shallow embedding

    The development follows [backend/src/backend/models.py] (the two table
    classes and their read/create shapes) and [backend/src/backend/main.py]
    (the five route handlers).  Handlers are written in a small state and
    error monad over a [World]: the two tables, the number of clock reads
    made so far, the trace of calls handed to the model client and the
    console output.

    Three collaborators of the handlers are not part of the handlers' code:
    the wall clock ([datetime.now]), the model client
    ([generate_llm_response]) and the relational engine behind [Session].
    The first two are oracles gathered in [Env]; of the engine only what the
    handlers ask of it is fixed (see [SqlEngine] and the remarks on row ids
    and on LIMIT/OFFSET below).

    Handlers run one at a time, each to completion.  Integers are Python's,
    unbounded; the width of the engine's INTEGER columns is not modelled.
    [backend/main.py] is an earlier revision of the same module with the
    first four handlers only; the handlers below are those of
    [backend/src/backend/main.py]. *)

From Stdlib Require Import ZArith List String Bool Lia Permutation Sorted.
Import ListNotations.

Local Open Scope string_scope.
Local Open Scope list_scope.
Local Open Scope Z_scope.

(** ** Data model (models.py) *)

(** [datetime] values are read only through comparison and equality; they are
    taken as integers (say, microseconds on the local wall clock). *)
Definition datetime := Z.

(** [class Conversation(SQLModel, table=True)]: [id: Optional[int]] with
    default [None], [title: Optional[str]], [created_at: datetime]. *)
Module Conversation.
Record t := mk {
  id : option Z;
  title : option string;
  created_at : datetime
}.
End Conversation.

(** [class Message(SQLModel, table=True)]: both [id] and [conversation_id]
    are [Optional[int]] with default [None]. *)
Module Message.
Record t := mk {
  id : option Z;
  conversation_id : option Z;
  content : string;
  role : string;
  created_at : datetime
}.

(** The row after its foreign key has been set to NULL. *)
Definition detach (m : t) : t :=
  mk (id m) None (content m) (role m) (created_at m).
End Message.

(** [class MessageCreate(SQLModel)]: the body of an exchange request. *)
Module MessageCreate.
Record t := mk {
  role : string;
  content : string
}.
End MessageCreate.

(** [class MessageRead(SQLModel)]: the response shape of an exchange. *)
Module MessageRead.
Record t := mk {
  id : Z;
  role : string;
  content : string;
  created_at : datetime
}.
End MessageRead.

(** [class ConversationRead(SQLModel)]: a conversation with its messages. *)
Module ConversationRead.
Record t := mk {
  id : Z;
  title : option string;
  created_at : datetime;
  messages : list Message.t
}.
End ConversationRead.

(** The JSON body of [POST /conversations/]: every field of the class may be
    present or not.  An [id] that is present is a JSON integer and a [title]
    a JSON string; JSON has no datetimes, so a [created_at] that is present
    is some other JSON value, kept here as the text that was sent. *)
Module ConversationBody.
Record t := mk {
  id : option Z;
  title : option string;
  created_at : option string
}.
End ConversationBody.

(** The [conversation] argument of [create_conversation] as the route builds
    it.  [Conversation] is a table class, and a table class is instantiated
    from the body without validation: what the client sent is kept as it is,
    so [created_at] holds either the datetime its default factory produced
    or the unparsed JSON value. *)
Module ConversationArg.
Record t := mk {
  id : option Z;
  title : option string;
  created_at : datetime + string
}.
End ConversationArg.

(** One element of [llm_messages]: the dict [{"role": .., "content": ..}]. *)
Module LlmMessage.
Record t := mk {
  role : string;
  content : string
}.
End LlmMessage.

(** ** Collaborators *)

(** What a call of [generate_llm_response] can do as far as the [try]
    statement of [create_message] is concerned: return a text, or raise an
    [Exception] (carried here by its printed form). *)
Inductive llm_outcome :=
| Generated (text : string)
| Raised (printed : string).

(** The oracles: [clock n] is the value of the [n]-th read of
    [datetime.now], [llm n h] the outcome of the [n]-th call of the model
    client when it is handed the history [h].  Nothing is assumed of either;
    in particular the wall clock may step backwards. *)
Record Env := {
  clock : nat -> datetime;
  llm : nat -> list LlmMessage.t -> llm_outcome
}.

Definition created_at_le (a b : Message.t) : Prop :=
  Message.created_at a <= Message.created_at b.

(** The one query of the handlers that carries an ORDER BY,
    [select(Message)...order_by(Message.created_at)].  The statement names a
    single sort key, so what the statement asks of an engine is the rows it
    was given, in non-decreasing [created_at].  The store the program runs
    on returns rows with equal keys in the order of a scan of the table
    ([scan_order_engine] below); what is proved for every [SqlEngine] holds
    for that store in particular. *)
Class SqlEngine := {
  order_by_created_at : list Message.t -> list Message.t;
  order_by_permutation :
    forall rows, Permutation rows (order_by_created_at rows);
  order_by_sorted :
    forall rows, StronglySorted created_at_le (order_by_created_at rows)
}.

(** ** The world the handlers run in *)

Record World := {
  db_conversations : list Conversation.t;
  db_messages : list Message.t;
  ticks : nat;
  llm_calls : list (list LlmMessage.t);
  stdout : list string
}.

Inductive Exn :=
| HTTPException (status_code : Z) (detail : string)
| IntegrityError
| StatementError
| ResponseValidationError.

(** State and error: a handler either raises, or returns a value; in both
    cases the world it leaves behind is explicit. *)
Definition M (A : Type) : Type := World -> (Exn + A) * World.

Definition ret {A} (a : A) : M A := fun w => (inr a, w).

Definition raise {A} (e : Exn) : M A := fun w => (inl e, w).

Definition bind {A B} (m : M A) (k : A -> M B) : M B :=
  fun w =>
    match m w with
    | (inl e, w') => (inl e, w')
    | (inr a, w') => k a w'
    end.

Notation "x <- m ;; k" := (bind m (fun x => k))
  (at level 61, m at next level, right associativity).
Notation "m ;;; k" := (bind m (fun _ => k))
  (at level 61, right associativity).

Definition get_world : M World := fun w => (inr w, w).

(** ** Engine primitives *)

Definition opt_Z_eqb (a b : option Z) : bool :=
  match a, b with
  | Some x, Some y => x =? y
  | None, None => true
  | _, _ => false
  end.

Definition conversation_ids (rows : list Conversation.t) : list Z :=
  flat_map (fun c => match Conversation.id c with
                     | Some i => [i]
                     | None => []
                     end) rows.

Definition message_ids (rows : list Message.t) : list Z :=
  flat_map (fun m => match Message.id m with
                     | Some i => [i]
                     | None => []
                     end) rows.

(** Modelled from the spec: the engine configuration ([database.py]) is not
    among the sources.  The spec has ids "integer, store-assigned, unique"
    in "a single relational store file"; the rule written here is the one of
    an integer primary key in such a file store: one more than the largest id
    in the table, and 1 in an empty table.  Ids range over all of [Z]. *)
Definition next_rowid (ids : list Z) : Z :=
  match ids with
  | [] => 1
  | i :: rest => 1 + fold_left Z.max rest i
  end.

(** Rows of the conversation table are kept in id order, which is the order
    a scan of the table yields them in. *)
Fixpoint insert_conversation (i : Z) (c : Conversation.t)
    (rows : list Conversation.t) : list Conversation.t :=
  match rows with
  | [] => [c]
  | r :: rest =>
      match Conversation.id r with
      | Some j => if i <? j then c :: r :: rest
                  else r :: insert_conversation i c rest
      | None => r :: insert_conversation i c rest
      end
  end.

(** Modelled from the spec: the result of [.offset(o)] and [.limit(l)] is
    decided by the engine, which is not among the sources.  For
    non-negative arguments this is the usual meaning; a negative OFFSET
    counts as zero and a negative LIMIT as no limit, as the file store of
    the spec treats them. *)
Definition sql_offset {A} (offset : Z) (rows : list A) : list A :=
  skipn (Z.to_nat offset) rows.

Definition sql_limit {A} (limit : Z) (rows : list A) : list A :=
  if limit <? 0 then rows else firstn (Z.to_nat limit) rows.

(** ** Session operations used by the handlers *)

(** [datetime.now()], the [default_factory] of both [created_at] fields. *)
Definition now (env : Env) : M datetime :=
  fun w =>
    (inr (clock env (ticks w)),
     {| db_conversations := db_conversations w;
        db_messages := db_messages w;
        ticks := S (ticks w);
        llm_calls := llm_calls w;
        stdout := stdout w |}).

(** The row of the conversation table with primary key [cid], if any. *)
Definition lookup_conversation (cid : Z) (rows : list Conversation.t)
    : option Conversation.t :=
  find (fun c => opt_Z_eqb (Conversation.id c) (Some cid)) rows.

(** [session.get(Conversation, conversation_id)]. *)
Definition get_conversation (cid : Z) : M (option Conversation.t) :=
  fun w => (inr (lookup_conversation cid (db_conversations w)), w).

(** [session.add(conversation); session.commit(); session.refresh(conversation)]:
    the INSERT takes the object's id when it has one (and fails on a
    primary-key clash, the transaction being rolled back), and lets the
    engine pick it otherwise; the refreshed object is the stored row. *)
Definition add_commit_refresh_conversation (c : Conversation.t)
    : M Conversation.t :=
  fun w =>
    let ids := conversation_ids (db_conversations w) in
    match Conversation.id c with
    | Some i =>
        if existsb (Z.eqb i) ids then (inl IntegrityError, w)
        else
          (inr c,
           {| db_conversations := insert_conversation i c (db_conversations w);
              db_messages := db_messages w;
              ticks := ticks w;
              llm_calls := llm_calls w;
              stdout := stdout w |})
    | None =>
        let i := next_rowid ids in
        let row := Conversation.mk (Some i) (Conversation.title c)
                                   (Conversation.created_at c) in
        (inr row,
         {| db_conversations := insert_conversation i row (db_conversations w);
            db_messages := db_messages w;
            ticks := ticks w;
            llm_calls := llm_calls w;
            stdout := stdout w |})
    end.

(** The first thing [session.commit()] does with a pending conversation is
    to bind the parameters of its INSERT.  The [created_at] column is a
    DateTime column, which takes datetime objects only: any other value is
    refused with a [StatementError] before the statement is sent, so before
    any key is checked and with nothing stored. *)
Definition bind_conversation (c : ConversationArg.t) : M Conversation.t :=
  match ConversationArg.created_at c with
  | inl t => ret (Conversation.mk (ConversationArg.id c)
                                  (ConversationArg.title c) t)
  | inr _ => raise StatementError
  end.

(** [session.add(message); session.commit(); session.refresh(message)] for a
    message built by a handler, whose [id] is always [None]: the engine
    picks the id, which is the largest of the table, so the row is the last
    one of a scan. *)
Definition add_commit_refresh_message (m : Message.t) : M Message.t :=
  fun w =>
    let i := next_rowid (message_ids (db_messages w)) in
    let row := Message.mk (Some i) (Message.conversation_id m)
                          (Message.content m) (Message.role m)
                          (Message.created_at m) in
    (inr row,
     {| db_conversations := db_conversations w;
        db_messages := db_messages w ++ [row];
        ticks := ticks w;
        llm_calls := llm_calls w;
        stdout := stdout w |}).

(** [select(Message).where(Message.conversation_id == conversation_id)]
    without ordering: the rows of the conversation, as a scan yields them. *)
Definition messages_of (cid : Z) (rows : list Message.t) : list Message.t :=
  filter (fun m => opt_Z_eqb (Message.conversation_id m) (Some cid)) rows.

(** [session.delete(conversation); session.commit()].  The relationship
    [Conversation.messages] is declared with [back_populates] only: no delete
    cascade on the relationship and no ON DELETE on the foreign key.  The
    unit of work then de-associates the children of the deleted parent,
    writing NULL into their (nullable) [conversation_id], and deletes the
    parent row alone. *)
Definition delete_commit_conversation (cid : Z) : M unit :=
  fun w =>
    (inr tt,
     {| db_conversations :=
          filter (fun c => negb (opt_Z_eqb (Conversation.id c) (Some cid)))
                 (db_conversations w);
        db_messages :=
          map (fun m => if opt_Z_eqb (Message.conversation_id m) (Some cid)
                        then Message.detach m else m)
              (db_messages w);
        ticks := ticks w;
        llm_calls := llm_calls w;
        stdout := stdout w |}).

(** The call [generate_llm_response(llm_messages)] seen from the caller: the
    call is recorded, and its outcome is the oracle's. *)
Definition generate_llm_response (env : Env) (h : list LlmMessage.t)
    : M llm_outcome :=
  fun w =>
    (inr (llm env (List.length (llm_calls w)) h),
     {| db_conversations := db_conversations w;
        db_messages := db_messages w;
        ticks := ticks w;
        llm_calls := llm_calls w ++ [h];
        stdout := stdout w |}).

(** [print("LLM error:", e)]. *)
Definition print (line : string) : M unit :=
  fun w =>
    (inr tt,
     {| db_conversations := db_conversations w;
        db_messages := db_messages w;
        ticks := ticks w;
        llm_calls := llm_calls w;
        stdout := stdout w ++ [line] |}).

(** ** The handlers (main.py) *)

(** The body [{"ok": True}] of a successful delete. *)
Record OkBody := { ok : bool }.

Definition not_found : Exn := HTTPException 404 "Conversation not found".

Definition fallback_text : string :=
  "Sorry, I had an error generating a response.".

Section Handlers.

Variable env : Env.
Context {engine : SqlEngine}.

(** The request body becomes the [conversation] argument: fields that are
    present are taken as they are, without validation; [id] and [title]
    default to [None], and [created_at] has [default_factory=datetime.now],
    which is called only when the field is missing. *)
Definition conversation_of_body (body : ConversationBody.t)
    : M ConversationArg.t :=
  created <- match ConversationBody.created_at body with
             | Some raw => ret (inr raw)
             | None => (t <- now env ;; ret (inl t))
             end ;;
  ret (ConversationArg.mk (ConversationBody.id body)
                          (ConversationBody.title body) created).

(** [POST /conversations/]: [session.add(conversation)], then
    [session.commit()] and [session.refresh(conversation)]. *)
Definition create_conversation (body : ConversationBody.t)
    : M Conversation.t :=
  conversation <- conversation_of_body body ;;
  row <- bind_conversation conversation ;;
  add_commit_refresh_conversation row.

(** [GET /conversations/]; [offset] and [limit] are plain [int] query
    parameters with defaults 0 and 100. *)
Definition read_conversations (offset limit : Z)
    : M (list Conversation.t) :=
  w <- get_world ;;
  ret (sql_limit limit (sql_offset offset (db_conversations w))).

Definition read_conversations_default : M (list Conversation.t) :=
  read_conversations 0 100.

(** [GET /conversations/{conversation_id}]: the first row with that id,
    with [selectinload(Conversation.messages)]; the relationship declares
    no [order_by], so the messages come as the scan yields them.  The
    value is returned in the shape of the [response_model]. *)
Definition read_conversation (conversation_id : Z)
    : M ConversationRead.t :=
  conversation <- get_conversation conversation_id ;;
  match conversation with
  | None => raise not_found
  | Some c =>
      match Conversation.id c with
      | None => raise ResponseValidationError
      | Some i =>
          w <- get_world ;;
          ret (ConversationRead.mk i (Conversation.title c)
                 (Conversation.created_at c)
                 (messages_of i (db_messages w)))
      end
  end.

(** [DELETE /conversations/{conversation_id}] *)
Definition delete_conversation (conversation_id : Z) : M OkBody :=
  conversation <- get_conversation conversation_id ;;
  match conversation with
  | None => raise not_found
  | Some _ =>
      delete_commit_conversation conversation_id ;;;
      ret {| ok := true |}
  end.

(** Step 3 of [create_message]: [history_stmt], executed. *)
Definition history_messages (conversation_id : Z) : M (list Message.t) :=
  w <- get_world ;;
  ret (order_by_created_at (messages_of conversation_id (db_messages w))).

Definition llm_message_of (m : Message.t) : LlmMessage.t :=
  LlmMessage.mk (Message.role m) (Message.content m).

(** [POST /conversations/{conversation_id}/messages/] *)
Definition create_message (conversation_id : Z) (message : MessageCreate.t)
    : M Message.t :=
  (* 1. Make sure the conversation exists *)
  conversation <- get_conversation conversation_id ;;
  match conversation with
  | None => raise not_found
  | Some _ =>
      (* 2. Save the user message *)
      t_user <- now env ;;
      user_message <- add_commit_refresh_message
        (Message.mk None (Some conversation_id)
           (MessageCreate.content message) (MessageCreate.role message)
           t_user) ;;
      (* 3. Build full conversation history *)
      history <- history_messages conversation_id ;;
      let llm_messages := map llm_message_of history in
      (* 4. Call LLM (but don't crash if it fails) *)
      outcome <- generate_llm_response env llm_messages ;;
      assistant_text <- match outcome with
                        | Generated text => ret text
                        | Raised e =>
                            print ("LLM error: " ++ e)%string ;;;
                            ret fallback_text
                        end ;;
      (* 5. Save assistant message *)
      t_assistant <- now env ;;
      assistant_message <- add_commit_refresh_message
        (Message.mk None (Some conversation_id) assistant_text "assistant"
           t_assistant) ;;
      (* 6. Return assistant message to the frontend *)
      ret assistant_message
  end.

End Handlers.

(** The body FastAPI sends for a [Message] under [response_model=MessageRead]:
    a row without an id cannot be serialised. *)
Definition message_read (m : Message.t) : option MessageRead.t :=
  match Message.id m with
  | Some i => Some (MessageRead.mk i (Message.role m) (Message.content m)
                                   (Message.created_at m))
  | None => None
  end.

(** ** The engine of the store *)

(** Insertion of a row before the first row with a strictly later
    [created_at]: rows with equal keys keep the order they arrive in. *)
Fixpoint insert_after_equal (m : Message.t) (sorted : list Message.t)
    : list Message.t :=
  match sorted with
  | [] => [m]
  | x :: rest =>
      if Message.created_at m <? Message.created_at x
      then m :: x :: rest
      else x :: insert_after_equal m rest
  end.

Definition sort_scan_order (rows : list Message.t) : list Message.t :=
  fold_left (fun acc m => insert_after_equal m acc) rows [].

(** ** Vocabulary of the statements *)

(** A conversation with id [cid] is in the store. *)
Definition conversation_exists (cid : Z) (w : World) : Prop :=
  In (Some cid) (map Conversation.id (db_conversations w)).

(** The row written by step 2 of [create_message] run in [w]. *)
Definition user_row (env : Env) (cid : Z) (message : MessageCreate.t)
    (w : World) : Message.t :=
  Message.mk (Some (next_rowid (message_ids (db_messages w)))) (Some cid)
             (MessageCreate.content message) (MessageCreate.role message)
             (clock env (ticks w)).

(** The rows selected by step 3 of [create_message] run in [w]. *)
Definition exchange_rows {engine : SqlEngine} (env : Env) (cid : Z)
    (message : MessageCreate.t) (w : World) : list Message.t :=
  order_by_created_at
    (messages_of cid (db_messages w ++ [user_row env cid message w])).

(** The argument of the model client in step 4 of [create_message]. *)
Definition exchange_history {engine : SqlEngine} (env : Env) (cid : Z)
    (message : MessageCreate.t) (w : World) : list LlmMessage.t :=
  map llm_message_of (exchange_rows env cid message w).

(** The outcome of the model client in step 4 of [create_message]. *)
Definition exchange_outcome {engine : SqlEngine} (env : Env) (cid : Z)
    (message : MessageCreate.t) (w : World) : llm_outcome :=
  llm env (List.length (llm_calls w)) (exchange_history env cid message w).

Definition reply_text (o : llm_outcome) : string :=
  match o with
  | Generated text => text
  | Raised _ => fallback_text
  end.

Definition reply_log (o : llm_outcome) (out : list string) : list string :=
  match o with
  | Generated _ => out
  | Raised e => out ++ [("LLM error: " ++ e)%string]
  end.

(** The row written by step 5 of [create_message] run in [w]. *)
Definition assistant_row {engine : SqlEngine} (env : Env) (cid : Z)
    (message : MessageCreate.t) (w : World) : Message.t :=
  Message.mk
    (Some (next_rowid
             (message_ids (db_messages w ++ [user_row env cid message w]))))
    (Some cid)
    (reply_text (exchange_outcome env cid message w))
    "assistant"
    (clock env (S (ticks w))).

(** [l] lists [x] somewhere before [y]. *)
Definition precedes {A} (x y : A) (l : list A) : Prop :=
  exists l1 l2 l3, l = l1 ++ x :: l2 ++ y :: l3.

(** Every message of the store belongs to a conversation of the store. *)
Definition referential_integrity (w : World) : Prop :=
  forall m, In m (db_messages w) ->
    exists cid, Message.conversation_id m = Some cid /\
                conversation_exists cid w.

(** ** The sort meets the contract of ORDER BY *)

Section InsertionSorts.

Lemma insert_after_equal_perm m l :
  Permutation (m :: l) (insert_after_equal m l).
Proof.
  induction l as [|x l IH]; simpl.
  - apply Permutation_refl.
  - destruct (Message.created_at m <? Message.created_at x).
    + apply Permutation_refl.
    + eapply perm_trans; [apply perm_swap|].
      now apply perm_skip.
Qed.

Lemma created_at_le_trans a b c :
  created_at_le a b -> created_at_le b c -> created_at_le a c.
Proof. unfold created_at_le; lia. Qed.

Lemma insert_after_equal_sorted m l :
  StronglySorted created_at_le l ->
  StronglySorted created_at_le (insert_after_equal m l).
Proof.
  induction 1 as [|x l Hl IH Hx]; simpl.
  - constructor; constructor.
  - destruct (Z.ltb_spec (Message.created_at m) (Message.created_at x)).
    + constructor; [now constructor|].
      constructor; [unfold created_at_le; lia|].
      eapply Forall_impl; [|exact Hx].
      intros y Hy; unfold created_at_le in *; lia.
    + constructor; [exact IH|].
      eapply Permutation_Forall; [apply insert_after_equal_perm|].
      constructor; [unfold created_at_le; lia | exact Hx].
Qed.

Variable ins : Message.t -> list Message.t -> list Message.t.
Hypothesis ins_perm : forall m l, Permutation (m :: l) (ins m l).
Hypothesis ins_sorted :
  forall m l, StronglySorted created_at_le l ->
              StronglySorted created_at_le (ins m l).

Lemma fold_insert_perm rows acc :
  Permutation (rows ++ acc) (fold_left (fun a m => ins m a) rows acc).
Proof.
  revert acc; induction rows as [|m rows IH]; intro acc; simpl.
  - apply Permutation_refl.
  - eapply perm_trans; [|apply IH].
    eapply perm_trans; [apply Permutation_middle|].
    apply Permutation_app_head, ins_perm.
Qed.

Lemma fold_insert_sorted rows acc :
  StronglySorted created_at_le acc ->
  StronglySorted created_at_le (fold_left (fun a m => ins m a) rows acc).
Proof.
  revert acc; induction rows as [|m rows IH]; intros acc Hacc; simpl.
  - exact Hacc.
  - apply IH, ins_sorted, Hacc.
Qed.

End InsertionSorts.

(** The engine of the store: ORDER BY leaves rows with equal [created_at]
    in scan order, which for the message table is insertion order. *)
Definition scan_order_engine : SqlEngine.
Proof.
  refine {| order_by_created_at := sort_scan_order |}.
  - intro rows. unfold sort_scan_order.
    rewrite <- (app_nil_r rows) at 1.
    apply fold_insert_perm, insert_after_equal_perm.
  - intro rows. apply fold_insert_sorted.
    + apply insert_after_equal_sorted.
    + constructor.
Defined.

(** ** Lookups, row ids *)

Lemma opt_Z_eqb_Some a cid : opt_Z_eqb a (Some cid) = true <-> a = Some cid.
Proof.
  destruct a as [x|]; simpl.
  - rewrite Z.eqb_eq. split; [now intros -> | now intros [= ->]].
  - split; discriminate.
Qed.

Lemma lookup_conversation_Some cid rows c :
  lookup_conversation cid rows = Some c ->
  In c rows /\ Conversation.id c = Some cid.
Proof.
  intro H. apply find_some in H. destruct H as [Hin Hid].
  split; [exact Hin | now apply opt_Z_eqb_Some].
Qed.

Lemma lookup_conversation_None cid rows :
  lookup_conversation cid rows = None <->
  ~ In (Some cid) (map Conversation.id rows).
Proof.
  unfold lookup_conversation. split.
  - intros H Hin. apply in_map_iff in Hin. destruct Hin as [c [Hid Hc]].
    pose proof (find_none _ _ H c Hc) as Hf. cbv beta in Hf.
    rewrite Hid in Hf. simpl in Hf. rewrite Z.eqb_refl in Hf. discriminate.
  - intro H. destruct (find _ rows) as [c|] eqn:Hf; [|reflexivity].
    exfalso. apply H. apply find_some in Hf. destruct Hf as [Hin Hid].
    apply opt_Z_eqb_Some in Hid. rewrite <- Hid. now apply in_map.
Qed.

Lemma lookup_conversation_exists cid w :
  conversation_exists cid w ->
  exists c, lookup_conversation cid (db_conversations w) = Some c.
Proof.
  intro H.
  destruct (lookup_conversation cid (db_conversations w)) as [c|] eqn:Hl.
  - now exists c.
  - apply lookup_conversation_None in Hl. contradiction.
Qed.

Lemma fold_max_ge rest : forall i x,
  In x (i :: rest) -> x <= fold_left Z.max rest i.
Proof.
  induction rest as [|y rest IH]; intros i x Hin; simpl in *.
  - destruct Hin as [->|[]]. lia.
  - destruct Hin as [->|[->|Hin]].
    + specialize (IH (Z.max x y) (Z.max x y) (or_introl eq_refl)). lia.
    + specialize (IH (Z.max i x) (Z.max i x) (or_introl eq_refl)). lia.
    + apply IH. now right.
Qed.

Lemma next_rowid_above ids x : In x ids -> x < next_rowid ids.
Proof.
  destruct ids as [|i rest]; [intros []|].
  intro Hin. apply fold_max_ge in Hin. unfold next_rowid. lia.
Qed.

Lemma next_rowid_fresh ids : ~ In (next_rowid ids) ids.
Proof. intro H. apply next_rowid_above in H. lia. Qed.

Lemma message_ids_app l1 l2 :
  message_ids (l1 ++ l2) = message_ids l1 ++ message_ids l2.
Proof. unfold message_ids. apply flat_map_app. Qed.

Lemma message_ids_app_l l1 l2 x :
  In x (message_ids l1) -> In x (message_ids (l1 ++ l2)).
Proof. intro H. rewrite message_ids_app. apply in_or_app. now left. Qed.

Lemma messages_of_app cid l1 l2 :
  messages_of cid (l1 ++ l2) = messages_of cid l1 ++ messages_of cid l2.
Proof. unfold messages_of. apply filter_app. Qed.

(** ** What one exchange does *)

(** The handler, run on an existing conversation, in closed form. *)
Lemma create_message_run {engine : SqlEngine} env cid message w :
  conversation_exists cid w ->
  create_message env cid message w =
  (inr (assistant_row env cid message w),
   {| db_conversations := db_conversations w;
      db_messages :=
        (db_messages w ++ [user_row env cid message w])
          ++ [assistant_row env cid message w];
      ticks := S (S (ticks w));
      llm_calls := llm_calls w ++ [exchange_history env cid message w];
      stdout := reply_log (exchange_outcome env cid message w) (stdout w) |}).
Proof.
  intro Hex. apply lookup_conversation_exists in Hex. destruct Hex as [c Hc].
  unfold create_message, bind, get_conversation. rewrite Hc.
  unfold now, add_commit_refresh_message, history_messages, get_world, ret,
    bind, generate_llm_response. cbn [db_messages ticks llm_calls stdout
    db_conversations Message.conversation_id Message.content Message.role
    Message.created_at].
  unfold assistant_row, exchange_outcome, exchange_history, exchange_rows,
    user_row.
  destruct (llm env _ _) as [text|e]; reflexivity.
Qed.

(** ** Position in a sorted list *)

Lemma sorted_app_inv l1 : forall l2,
  StronglySorted created_at_le (l1 ++ l2) ->
  StronglySorted created_at_le l2 /\
  forall x y, In x l1 -> In y l2 -> created_at_le x y.
Proof.
  induction l1 as [|a l1 IH]; intros l2 H; simpl in *.
  - split; [exact H | intros x y []].
  - apply StronglySorted_inv in H. destruct H as [Hs Hall].
    destruct (IH _ Hs) as [H2 Hle]. split; [exact H2|].
    intros x y [<-|Hx] Hy.
    + rewrite Forall_forall in Hall. apply Hall, in_or_app. now right.
    + now apply Hle.
Qed.

(** In a list sorted by [created_at], a row with a strictly earlier
    [created_at] stands before any row with a strictly later one. *)
Lemma sorted_precedes l x y :
  StronglySorted created_at_le l ->
  In x l -> In y l ->
  Message.created_at x < Message.created_at y ->
  precedes x y l.
Proof.
  intros Hs Hx Hy Hlt.
  apply in_split in Hx. destruct Hx as [l1 [r ->]].
  apply in_app_or in Hy. destruct Hy as [Hy|[Hy|Hy]].
  - exfalso. destruct (sorted_app_inv _ _ Hs) as [_ Hle].
    specialize (Hle y x Hy (or_introl eq_refl)).
    unfold created_at_le in Hle. lia.
  - subst y. lia.
  - apply in_split in Hy. destruct Hy as [l2 [l3 ->]].
    now exists l1, l2, l3.
Qed.

Lemma sorted_filter (f : Message.t -> bool) l :
  StronglySorted created_at_le l ->
  StronglySorted created_at_le (filter f l).
Proof.
  induction 1 as [|a l Hs IH Hall]; simpl.
  - constructor.
  - destruct (f a); [|exact IH].
    constructor; [exact IH|].
    rewrite Forall_forall in *. intros x Hx.
    apply filter_In in Hx. now apply Hall.
Qed.

(** ** Deleting a conversation *)

Lemma messages_of_In cid rows m :
  In m (messages_of cid rows) <->
  In m rows /\ Message.conversation_id m = Some cid.
Proof.
  unfold messages_of. rewrite filter_In.
  now rewrite opt_Z_eqb_Some.
Qed.

Lemma messages_of_detached cid rows :
  messages_of cid
    (map (fun m => if opt_Z_eqb (Message.conversation_id m) (Some cid)
                   then Message.detach m else m) rows) = [].
Proof.
  induction rows as [|m rows IH]; simpl; [reflexivity|].
  destruct (opt_Z_eqb (Message.conversation_id m) (Some cid)) eqn:E; simpl.
  - exact IH.
  - rewrite E. exact IH.
Qed.

Lemma detached_ids cid rows :
  map Message.id
    (map (fun m => if opt_Z_eqb (Message.conversation_id m) (Some cid)
                   then Message.detach m else m) rows) = map Message.id rows.
Proof.
  rewrite map_map. apply map_ext. intro m.
  now destruct (opt_Z_eqb (Message.conversation_id m) (Some cid)).
Qed.

Lemma deleted_conversation_absent cid rows :
  ~ In (Some cid)
      (map Conversation.id
         (filter (fun c => negb (opt_Z_eqb (Conversation.id c) (Some cid)))
                 rows)).
Proof.
  intro H. apply in_map_iff in H. destruct H as [c [Hid Hc]].
  apply filter_In in Hc. destruct Hc as [_ Hc].
  rewrite Hid in Hc. simpl in Hc. rewrite Z.eqb_refl in Hc. discriminate.
Qed.

(** The handler, run on an existing conversation, in closed form. *)
Lemma delete_conversation_run cid w :
  conversation_exists cid w ->
  delete_conversation cid w =
  (inr {| ok := true |},
   {| db_conversations :=
        filter (fun c => negb (opt_Z_eqb (Conversation.id c) (Some cid)))
               (db_conversations w);
      db_messages :=
        map (fun m => if opt_Z_eqb (Message.conversation_id m) (Some cid)
                      then Message.detach m else m)
            (db_messages w);
      ticks := ticks w;
      llm_calls := llm_calls w;
      stdout := stdout w |}).
Proof.
  intro Hex. apply lookup_conversation_exists in Hex. destruct Hex as [c Hc].
  unfold delete_conversation, bind, get_conversation. now rewrite Hc.
Qed.

Lemma handlers_not_found cid w :
  ~ conversation_exists cid w ->
  lookup_conversation cid (db_conversations w) = None.
Proof. intro H. now apply lookup_conversation_None. Qed.

(** ** Worlds and oracles used in examples *)

Definition hello : MessageCreate.t := MessageCreate.mk "user" "hello".
Definition again : MessageCreate.t := MessageCreate.mk "user" "again".

(** One conversation, no message yet. *)
Definition w_fresh : World :=
  {| db_conversations := [Conversation.mk (Some 1) (Some "first") 0];
     db_messages := [];
     ticks := 0;
     llm_calls := [];
     stdout := [] |}.

(** A clock that advances by one at each read, a client that answers. *)
Definition env_ok : Env :=
  {| clock := fun n => 100 + Z.of_nat n;
     llm := fun _ _ => Generated "hi" |}.


(** A clock too coarse to tell two reads apart: timestamps collide. *)
Definition env_coarse : Env :=
  {| clock := fun _ => 100;
     llm := fun _ _ => Generated "hi" |}.

(** A wall clock that is set back between the first and the second read:
    it shows 200, then 150, and advances from there. *)
Definition env_set_back : Env :=
  {| clock := fun n => match n with
                       | O => 200
                       | S k => 150 + Z.of_nat k
                       end;
     llm := fun _ _ => Generated "hi" |}.

(** Three conversations; the first two have had one exchange each. *)
Definition w_shared : World :=
  {| db_conversations :=
       [Conversation.mk (Some 1) (Some "first") 0;
        Conversation.mk (Some 2) (Some "second") 50;
        Conversation.mk (Some 3) (Some "third") 60];
     db_messages :=
       [Message.mk (Some 1) (Some 1) "hello" "user" 100;
        Message.mk (Some 2) (Some 1) "hi" "assistant" 101;
        Message.mk (Some 3) (Some 2) "secret of conversation 2" "user" 102;
        Message.mk (Some 4) (Some 2) "hi" "assistant" 103];
     ticks := 4;
     llm_calls :=
       [[LlmMessage.mk "user" "hello"];
        [LlmMessage.mk "user" "secret of conversation 2"]];
     stdout := [] |}.

Lemma w_shared_has_1 : conversation_exists 1 w_shared.
Proof. left. reflexivity. Defined.

Lemma w_shared_has_2 : conversation_exists 2 w_shared.
Proof. right. left. reflexivity. Defined.

Lemma w_fresh_has_1 : conversation_exists 1 w_fresh.
Proof. left. reflexivity. Defined.

Lemma w_fresh_lacks_7 : ~ conversation_exists 7 w_fresh.
Proof. intros [H|[]]. discriminate H. Defined.

(** ** The exchange: failure of the model client, missing conversation *)



(** C2. For a conversation id that is not in the store, [create_message]
    raises the 404 error "Conversation not found" and leaves the world as it
    was: no message is written, the clock is not read and the model client
    is not called. *)
Theorem create_message_not_found {engine : SqlEngine} env cid message w :
  ~ conversation_exists cid w ->
  create_message env cid message w
    = (inl (HTTPException 404 "Conversation not found"), w).
Proof.
  intro H. apply handlers_not_found in H.
  unfold create_message, bind, get_conversation. now rewrite H.
Qed.

Lemma create_message_not_found_witness :
  @create_message env_ok scan_order_engine 7 hello w_fresh
    = (inl (HTTPException 404 "Conversation not found"), w_fresh).
Proof.
  apply (@create_message_not_found scan_order_engine env_ok 7 hello w_fresh).
  exact w_fresh_lacks_7.
Defined.

(** ** The exchange: two rows *)

(** C3, as stated, fails when the wall clock is set back between the two
    constructions: the exchange below stores the user message with
    [created_at] 200 and the assistant message with [created_at] 150. *)
Lemma create_message_clock_set_back :
  let user_message := Message.mk (Some 1) (Some 1) "hello" "user" 200 in
  let assistant_message := Message.mk (Some 2) (Some 1) "hi" "assistant" 150 in
  conversation_exists 1 w_fresh /\
  fst (@create_message env_set_back scan_order_engine 1 hello w_fresh)
    = inr assistant_message /\
  db_messages
    (snd (@create_message env_set_back scan_order_engine 1 hello w_fresh))
    = db_messages w_fresh ++ [user_message; assistant_message] /\
  ~ Message.created_at user_message <= Message.created_at assistant_message.
Proof.
  cbv zeta. split; [exact w_fresh_has_1|].
  split; [vm_compute; reflexivity|].
  split; [vm_compute; reflexivity|].
  cbn. lia.
Qed.

(** C3, amended.  One call of [create_message] on an existing conversation
    appends exactly two rows to the message table, both to that
    conversation: first one with the caller's role and content, then one with
    role "assistant"; each gets a fresh id from the store and the value the
    clock shows when it is built; the second row is what the handler returns,
    and it has an id to be serialised with.  The first [created_at] is not
    after the second whenever the clock was not set back between the two
    reads.  The conversation table is untouched. *)
Theorem create_message_appends_two {engine : SqlEngine} env cid message w :
  conversation_exists cid w ->
  exists user_message assistant_message w',
    create_message env cid message w = (inr assistant_message, w') /\
    db_messages w' = db_messages w ++ [user_message; assistant_message] /\
    messages_of cid (db_messages w') =
      messages_of cid (db_messages w) ++ [user_message; assistant_message] /\
    db_conversations w' = db_conversations w /\
    Message.role user_message = MessageCreate.role message /\
    Message.content user_message = MessageCreate.content message /\
    Message.role assistant_message = "assistant" /\
    (exists i j,
        Message.id user_message = Some i /\
        Message.id assistant_message = Some j /\
        ~ In i (message_ids (db_messages w)) /\
        ~ In j (message_ids (db_messages w)) /\
        i <> j /\
        exists body, message_read assistant_message = Some body /\
                     MessageRead.id body = j /\
                     MessageRead.created_at body
                       = Message.created_at assistant_message) /\
    Message.created_at user_message = clock env (ticks w) /\
    Message.created_at assistant_message = clock env (S (ticks w)) /\
    (clock env (ticks w) <= clock env (S (ticks w)) ->
     Message.created_at user_message <= Message.created_at assistant_message).
Proof.
  intro Hex.
  exists (user_row env cid message w), (assistant_row env cid message w).
  eexists. split; [apply (create_message_run env cid message w Hex)|].
  cbn [db_messages db_conversations].
  split; [now rewrite <- app_assoc|].
  split.
  { rewrite <- app_assoc, messages_of_app. f_equal.
    unfold messages_of. cbn. now rewrite Z.eqb_refl. }
  repeat (split; [reflexivity|]).
  split.
  - eexists. eexists. split; [reflexivity|]. split; [reflexivity|].
    split; [apply next_rowid_fresh|].
    assert (Hj : forall x, In x (message_ids
                 (db_messages w ++ [user_row env cid message w])) ->
               x <> next_rowid (message_ids
                 (db_messages w ++ [user_row env cid message w]))).
    { intros x Hx ->. now apply next_rowid_fresh in Hx. }
    split.
    { intro Hin. eapply Hj; [|reflexivity].
      apply message_ids_app_l, Hin. }
    split.
    { apply Hj. rewrite message_ids_app. apply in_or_app. right.
      left. reflexivity. }
    eexists. split; [reflexivity|]. split; reflexivity.
  - split; [reflexivity|]. split; [reflexivity|]. cbn. intro H; exact H.
Qed.

Lemma create_message_appends_two_witness :
  exists user_message assistant_message w',
    @create_message env_ok scan_order_engine 1 hello w_fresh
      = (inr assistant_message, w') /\
    db_messages w' = db_messages w_fresh ++ [user_message; assistant_message] /\
    messages_of 1 (db_messages w') =
      messages_of 1 (db_messages w_fresh)
        ++ [user_message; assistant_message] /\
    db_conversations w' = db_conversations w_fresh /\
    Message.role user_message = "user" /\
    Message.content user_message = "hello" /\
    Message.role assistant_message = "assistant" /\
    (exists i j,
        Message.id user_message = Some i /\
        Message.id assistant_message = Some j /\
        ~ In i (message_ids (db_messages w_fresh)) /\
        ~ In j (message_ids (db_messages w_fresh)) /\
        i <> j /\
        exists body, message_read assistant_message = Some body /\
                     MessageRead.id body = j /\
                     MessageRead.created_at body
                       = Message.created_at assistant_message) /\
    Message.created_at user_message = 100 /\
    Message.created_at assistant_message = 101 /\
    (100 <= 101 ->
     Message.created_at user_message <= Message.created_at assistant_message).
Proof.
  apply (@create_message_appends_two scan_order_engine env_ok 1 hello w_fresh).
  exact w_fresh_has_1.
Defined.

(** ** The exchange: what the model client is handed *)

(** C4. On an existing conversation, [create_message] calls the model
    client exactly once, and the argument of that call is the projection to
    role and content of a list of rows which holds the stored messages whose
    [conversation_id] is that conversation, and the user message just
    written, and no other row; each of them once, in non-decreasing
    [created_at]; nothing is cut off, so the argument is one longer than the
    conversation was. *)
Theorem create_message_history {engine : SqlEngine} env cid message w :
  conversation_exists cid w ->
  exists assistant_message w' rows,
    create_message env cid message w = (inr assistant_message, w') /\
    llm_calls w' = llm_calls w ++ [map llm_message_of rows] /\
    (forall m,
       In m rows <->
       (In m (db_messages w) \/ m = user_row env cid message w) /\
       Message.conversation_id m = Some cid) /\
    Permutation
      (filter (fun m => opt_Z_eqb (Message.conversation_id m) (Some cid))
              (db_messages w)
         ++ [user_row env cid message w])
      rows /\
    Permutation
      (messages_of cid (db_messages w) ++ [user_row env cid message w])
      rows /\
    StronglySorted created_at_le rows /\
    In (user_row env cid message w) rows /\
    In (user_row env cid message w) (db_messages w') /\
    List.length (map llm_message_of rows)
      = S (List.length (messages_of cid (db_messages w))) /\
    (forall m, LlmMessage.role (llm_message_of m) = Message.role m /\
               LlmMessage.content (llm_message_of m) = Message.content m).
Proof.
  intro Hex.
  assert (Hrows : messages_of cid (db_messages w ++ [user_row env cid message w])
                  = messages_of cid (db_messages w)
                      ++ [user_row env cid message w]).
  { rewrite messages_of_app. f_equal.
    unfold messages_of. cbn. now rewrite Z.eqb_refl. }
  assert (Hperm : Permutation
            (messages_of cid (db_messages w) ++ [user_row env cid message w])
            (exchange_rows env cid message w)).
  { unfold exchange_rows. rewrite <- Hrows. apply order_by_permutation. }
  eexists. eexists. exists (exchange_rows env cid message w).
  split; [apply (create_message_run env cid message w Hex)|].
  cbn [db_messages llm_calls].
  split; [reflexivity|].
  split.
  { intro m. split.
    - intro Hin. apply (Permutation_in _ (Permutation_sym Hperm)) in Hin.
      apply in_app_or in Hin. destruct Hin as [Hin|[<-|[]]].
      + apply messages_of_In in Hin. destruct Hin as [Hin Hc].
        split; [now left | exact Hc].
      + split; [now right | reflexivity].
    - intros [[Hin| ->] Hc].
      + apply (Permutation_in _ Hperm), in_or_app. left.
        apply messages_of_In. now split.
      + apply (Permutation_in _ Hperm), in_or_app. right. now left. }
  split; [exact Hperm|].
  split; [exact Hperm|].
  split; [apply order_by_sorted|].
  split.
  { eapply Permutation_in; [exact Hperm|]. apply in_or_app. right. now left. }
  split.
  { apply in_or_app. left. apply in_or_app. right. now left. }
  split.
  { rewrite length_map, <- (Permutation_length Hperm), length_app.
    cbn. apply Nat.add_1_r. }
  intro m. split; reflexivity.
Qed.

(** An exchange on conversation 1 of [w_shared]: the two messages of
    conversation 2 stay out of the history. *)
Lemma create_message_history_witness :
  exists assistant_message w' rows,
    @create_message env_ok scan_order_engine 1 again w_shared
      = (inr assistant_message, w') /\
    llm_calls w' = llm_calls w_shared ++ [map llm_message_of rows] /\
    (forall m,
       In m rows <->
       (In m (db_messages w_shared) \/ m = user_row env_ok 1 again w_shared)
       /\ Message.conversation_id m = Some 1) /\
    Permutation
      (filter (fun m => opt_Z_eqb (Message.conversation_id m) (Some 1))
              (db_messages w_shared)
         ++ [user_row env_ok 1 again w_shared])
      rows /\
    Permutation
      (messages_of 1 (db_messages w_shared)
         ++ [user_row env_ok 1 again w_shared])
      rows /\
    StronglySorted created_at_le rows /\
    In (user_row env_ok 1 again w_shared) rows /\
    In (user_row env_ok 1 again w_shared) (db_messages w') /\
    List.length (map llm_message_of rows)
      = S (List.length (messages_of 1 (db_messages w_shared))) /\
    (forall m, LlmMessage.role (llm_message_of m) = Message.role m /\
               LlmMessage.content (llm_message_of m) = Message.content m).
Proof.
  apply (@create_message_history scan_order_engine env_ok 1 again w_shared).
  exact w_shared_has_1.
Defined.

(** The same exchange, evaluated: three entries, oldest first. *)
Example create_message_history_shared :
  llm_calls (snd (@create_message env_ok scan_order_engine 1 again w_shared))
  = llm_calls w_shared
      ++ [[LlmMessage.mk "user" "hello";
           LlmMessage.mk "assistant" "hi";
           LlmMessage.mk "user" "again"]].
Proof. reflexivity. Qed.

(** ** Deleting a conversation: what happens to its messages *)

(** The store after the exchange [hello] in [w_fresh] under [env_ok]. *)
Definition w_talk : World :=
  {| db_conversations := [Conversation.mk (Some 1) (Some "first") 0];
     db_messages :=
       [Message.mk (Some 1) (Some 1) "hello" "user" 100;
        Message.mk (Some 2) (Some 1) "hi" "assistant" 101];
     ticks := 2;
     llm_calls := [[LlmMessage.mk "user" "hello"]];
     stdout := [] |}.

Lemma w_talk_reached :
  snd (@create_message env_ok scan_order_engine 1 hello w_fresh) = w_talk.
Proof. reflexivity. Qed.

Lemma w_talk_has_1 : conversation_exists 1 w_talk.
Proof. left. reflexivity. Defined.

Lemma w_talk_integrity : referential_integrity w_talk.
Proof.
  intros m [<-|[<-|[]]]; exists 1; split; try reflexivity; exact w_talk_has_1.
Qed.

(** C5, as stated, fails: after the conversation of [w_talk] is deleted, its
    two messages are still rows of the message table, with ids 1 and 2 and no
    conversation. *)
Lemma delete_conversation_keeps_rows :
  conversation_exists 1 w_talk /\
  messages_of 1 (db_messages w_talk) = db_messages w_talk /\
  fst (delete_conversation 1 w_talk) = inr {| ok := true |} /\
  db_messages (snd (delete_conversation 1 w_talk)) =
    [Message.mk (Some 1) None "hello" "user" 100;
     Message.mk (Some 2) None "hi" "assistant" 101].
Proof.
  split; [exact w_talk_has_1|]. repeat split.
Qed.

(** C5, amended.  Deleting an existing conversation answers [{ok: true}],
    removes the conversation row and keeps every message row: the messages of
    the deleted conversation stay in the table under their ids with
    [conversation_id] set to [None], the other messages and conversations are
    untouched.  Afterwards the conversation has no message to list and
    reading it is a 404.  Deleting an absent conversation is a 404
    "Conversation not found" and changes nothing. *)
Theorem delete_conversation_detaches cid w :
  (conversation_exists cid w ->
   exists w',
     delete_conversation cid w = (inr {| ok := true |}, w') /\
     ~ conversation_exists cid w' /\
     read_conversation cid w'
       = (inl (HTTPException 404 "Conversation not found"), w') /\
     messages_of cid (db_messages w') = [] /\
     map Message.id (db_messages w') = map Message.id (db_messages w) /\
     (forall m, In m (db_messages w) ->
        Message.conversation_id m = Some cid ->
        In (Message.detach m) (db_messages w')) /\
     (forall m, In m (db_messages w) ->
        Message.conversation_id m <> Some cid ->
        In m (db_messages w')) /\
     (forall c, In c (db_conversations w) ->
        Conversation.id c <> Some cid ->
        In c (db_conversations w'))) /\
  (~ conversation_exists cid w ->
   delete_conversation cid w
     = (inl (HTTPException 404 "Conversation not found"), w)).
Proof.
  split.
  - intro Hex. eexists. split; [apply (delete_conversation_run cid w Hex)|].
    assert (Hgone : ~ In (Some cid) (map Conversation.id
              (filter (fun c => negb (opt_Z_eqb (Conversation.id c) (Some cid)))
                      (db_conversations w))))
      by apply deleted_conversation_absent.
    split; [exact Hgone|].
    split.
    { apply lookup_conversation_None in Hgone.
      unfold read_conversation, bind, get_conversation.
      cbn [db_conversations]. now rewrite Hgone. }
    cbn [db_messages db_conversations].
    split; [apply messages_of_detached|].
    split; [apply detached_ids|].
    split; [|split].
    + intros m Hin Hc. apply in_map_iff. exists m. split; [|exact Hin].
      apply opt_Z_eqb_Some in Hc. now rewrite Hc.
    + intros m Hin Hc. apply in_map_iff. exists m. split; [|exact Hin].
      destruct (opt_Z_eqb (Message.conversation_id m) (Some cid)) eqn:E;
        [|reflexivity].
      apply opt_Z_eqb_Some in E. contradiction.
    + intros c Hin Hc. apply filter_In. split; [exact Hin|].
      destruct (opt_Z_eqb (Conversation.id c) (Some cid)) eqn:E;
        [|reflexivity].
      apply opt_Z_eqb_Some in E. contradiction.
  - intro H. apply handlers_not_found in H.
    unfold delete_conversation, bind, get_conversation. now rewrite H.
Qed.

Lemma delete_conversation_detaches_witness :
  exists w',
    delete_conversation 1 w_talk = (inr {| ok := true |}, w') /\
    ~ conversation_exists 1 w' /\
    read_conversation 1 w'
      = (inl (HTTPException 404 "Conversation not found"), w') /\
    messages_of 1 (db_messages w') = [] /\
    map Message.id (db_messages w') = map Message.id (db_messages w_talk) /\
    delete_conversation 7 w_talk
      = (inl (HTTPException 404 "Conversation not found"), w_talk).
Proof.
  destruct (delete_conversation_detaches 1 w_talk) as [Hyes _].
  destruct (Hyes w_talk_has_1) as [w' [H1 [H2 [H3 [H4 [H5 _]]]]]].
  destruct (delete_conversation_detaches 7 w_talk) as [_ Hno].
  exists w'. repeat (split; [assumption|]).
  apply Hno. intros [H|[]]. discriminate H.
Defined.

(** C8. [Message.conversation_id] is optional, and the handlers do not keep
    every stored message attached to a stored conversation: deleting the
    conversation of a stored message leaves that message in the table with
    [conversation_id] equal to [None], so that the store no longer has
    referential integrity. *)
Theorem detached_message_in_store cid w m :
  conversation_exists cid w ->
  In m (db_messages w) ->
  Message.conversation_id m = Some cid ->
  exists w',
    delete_conversation cid w = (inr {| ok := true |}, w') /\
    In (Message.detach m) (db_messages w') /\
    Message.conversation_id (Message.detach m) = None /\
    Message.id (Message.detach m) = Message.id m /\
    ~ referential_integrity w'.
Proof.
  intros Hex Hin Hc.
  eexists. split; [apply (delete_conversation_run cid w Hex)|].
  assert (Hd : In (Message.detach m)
                 (map (fun m => if opt_Z_eqb (Message.conversation_id m)
                                               (Some cid)
                                then Message.detach m else m)
                      (db_messages w))).
  { apply in_map_iff. exists m. split; [|exact Hin].
    apply opt_Z_eqb_Some in Hc. now rewrite Hc. }
  cbn [db_messages].
  split; [exact Hd|]. split; [reflexivity|]. split; [reflexivity|].
  intro Hri. destruct (Hri _ Hd) as [c [Habs _]]. discriminate Habs.
Qed.

Lemma detached_message_in_store_witness :
  referential_integrity w_talk /\
  exists w',
    delete_conversation 1 w_talk = (inr {| ok := true |}, w') /\
    In (Message.mk (Some 1) None "hello" "user" 100) (db_messages w') /\
    ~ referential_integrity w'.
Proof.
  split; [exact w_talk_integrity|].
  destruct (detached_message_in_store 1 w_talk
              (Message.mk (Some 1) (Some 1) "hello" "user" 100))
    as [w' [H1 [H2 [_ [_ H3]]]]].
  - exact w_talk_has_1.
  - left. reflexivity.
  - reflexivity.
  - exists w'. split; [exact H1|]. split; [exact H2 | exact H3].
Defined.

(** ** History order *)

(** The handler's step 3, run in any world, in closed form. *)
Lemma history_messages_run {engine : SqlEngine} cid w :
  history_messages cid w
    = (inr (order_by_created_at (messages_of cid (db_messages w))), w).
Proof. reflexivity. Qed.

(** *** Rows before rows *)

Lemma precedes_cons {A} (x y h : A) t :
  precedes x y t -> precedes x y (h :: t).
Proof. intros [l1 [l2 [l3 ->]]]. now exists (h :: l1), l2, l3. Qed.

Lemma precedes_head {A} (h y : A) t : In y t -> precedes h y (h :: t).
Proof.
  intro H. apply in_split in H. destruct H as [l2 [l3 ->]].
  now exists [], l2, l3.
Qed.

Lemma precedes_cons_inv {A} (x y h : A) t :
  precedes x y (h :: t) -> (x = h /\ In y t) \/ precedes x y t.
Proof.
  intros [l1 [l2 [l3 H]]]. destruct l1 as [|a l1]; simpl in H.
  - injection H as <- ->. left. split; [reflexivity|].
    apply in_or_app. right. now left.
  - injection H as _ ->. right. now exists l1, l2, l3.
Qed.

Lemma precedes_nil {A} (x y : A) : ~ precedes x y [].
Proof. intros [l1 [l2 [l3 H]]]. destruct l1; discriminate H. Qed.

Lemma precedes_filter {A} (f : A -> bool) x y l :
  precedes x y l -> f x = true -> f y = true -> precedes x y (filter f l).
Proof.
  intros [l1 [l2 [l3 ->]]] Hx Hy.
  exists (filter f l1), (filter f l2), (filter f l3).
  rewrite filter_app. cbn [filter]. rewrite Hx, filter_app.
  cbn [filter]. now rewrite Hy.
Qed.

(** *** The sort of the store keeps rows with equal keys in their order *)

Lemma insert_after_equal_keeps m l x y :
  precedes x y l -> precedes x y (insert_after_equal m l).
Proof.
  induction l as [|h t IH]; intro H; simpl.
  - now apply precedes_nil in H.
  - destruct (Message.created_at m <? Message.created_at h).
    + now apply precedes_cons.
    + apply precedes_cons_inv in H. destruct H as [[-> Hy]|H].
      * apply precedes_head.
        eapply Permutation_in; [apply insert_after_equal_perm|]. now right.
      * apply precedes_cons. now apply IH.
Qed.

Lemma insert_after_equal_after m l x :
  StronglySorted created_at_le l ->
  In x l ->
  Message.created_at x <= Message.created_at m ->
  precedes x m (insert_after_equal m l).
Proof.
  induction 1 as [|h t Hs IH Hall]; intros Hin Hle; simpl.
  - destruct Hin.
  - rewrite Forall_forall in Hall.
    destruct (Z.ltb_spec (Message.created_at m) (Message.created_at h)).
    + exfalso. destruct Hin as [->|Hin]; [lia|].
      specialize (Hall x Hin). unfold created_at_le in Hall. lia.
    + destruct Hin as [->|Hin].
      * apply precedes_head.
        eapply Permutation_in; [apply insert_after_equal_perm|]. now left.
      * apply precedes_cons. now apply IH.
Qed.

Lemma fold_insert_stable rows : forall acc x y,
  StronglySorted created_at_le acc ->
  Message.created_at x <= Message.created_at y ->
  precedes x y acc \/ (In x acc /\ In y rows) \/ precedes x y rows ->
  precedes x y
    (fold_left (fun a m => insert_after_equal m a) rows acc).
Proof.
  induction rows as [|m rest IH]; intros acc x y Hs Hle H; simpl.
  - destruct H as [H|[[_ []]|H]]; [exact H|]. now apply precedes_nil in H.
  - apply IH; [now apply insert_after_equal_sorted | exact Hle |].
    assert (Hkeep : forall z, In z acc -> In z (insert_after_equal m acc)).
    { intros z Hz.
      eapply Permutation_in; [apply insert_after_equal_perm|]. now right. }
    destruct H as [H|[[Hx [<-|Hy]]|H]].
    + left. now apply insert_after_equal_keeps.
    + left. now apply insert_after_equal_after.
    + right. left. split; [now apply Hkeep | exact Hy].
    + apply precedes_cons_inv in H. destruct H as [[-> Hy]|H].
      * right. left. split; [|exact Hy].
        eapply Permutation_in; [apply insert_after_equal_perm|]. now left.
      * right. now right.
Qed.

Lemma sort_scan_order_stable rows x y :
  precedes x y rows ->
  Message.created_at x <= Message.created_at y ->
  precedes x y (sort_scan_order rows).
Proof.
  intros H Hle. unfold sort_scan_order.
  apply fold_insert_stable; [constructor | exact Hle | now right; right].
Qed.

(** C6, as stated, fails when the wall clock is set back during an
    exchange.  The user row is stored with [created_at] 200 and the
    assistant row with [created_at] 150; the history of the conversation,
    which is ordered by [created_at], then has the reply before the message
    it replies to, and that is what the next exchange hands the model
    client. *)
Lemma history_set_back_assistant_first :
  let user_message := Message.mk (Some 1) (Some 1) "hello" "user" 200 in
  let assistant_message := Message.mk (Some 2) (Some 1) "hi" "assistant" 150 in
  let w1 :=
    snd (@create_message env_set_back scan_order_engine 1 hello w_fresh) in
  db_messages w1 = [user_message; assistant_message] /\
  @history_messages scan_order_engine 1 w1
    = (inr [assistant_message; user_message], w1) /\
  llm_calls (snd (@create_message env_set_back scan_order_engine 1 again w1))
    = [[LlmMessage.mk "user" "hello"];
       [LlmMessage.mk "assistant" "hi";
        LlmMessage.mk "user" "again";
        LlmMessage.mk "user" "hello"]] /\
  ~ precedes user_message assistant_message
      [assistant_message; user_message].
Proof.
  cbv zeta. split; [reflexivity|]. split; [reflexivity|].
  split; [reflexivity|].
  intros [l1 [l2 [l3 H]]].
  destruct l1 as [|a [|b l1]]; simpl in H.
  - discriminate H.
  - injection H as _ H. destruct l2; discriminate H.
  - injection H as _ _ H. destruct l1; discriminate H.
Qed.

(** C6, amended.  History reconstruction lists the stored messages of the
    conversation, and only them, in non-decreasing [created_at], and where
    timestamps collide in the order in which the table holds them, which is
    the order of insertion.  So a message stands before every message with a
    strictly later [created_at], and before every message inserted after it
    whose [created_at] is not earlier.  For one exchange the user message
    stands before the assistant message in every later history when the
    clock was not set back between the two reads, collisions included; when
    it was set back, the assistant message stands first. *)
Theorem history_order env cid message w :
  (exists history,
     @history_messages scan_order_engine cid w = (inr history, w) /\
     (forall m, In m history <->
                In m (db_messages w) /\
                Message.conversation_id m = Some cid) /\
     Permutation
       (filter (fun m => opt_Z_eqb (Message.conversation_id m) (Some cid))
               (db_messages w))
       history /\
     StronglySorted created_at_le history /\
     (forall x y, In x history -> In y history ->
        Message.created_at x < Message.created_at y ->
        precedes x y history) /\
     (forall x y, precedes x y (db_messages w) ->
        Message.conversation_id x = Some cid ->
        Message.conversation_id y = Some cid ->
        Message.created_at x <= Message.created_at y ->
        precedes x y history)) /\
  (conversation_exists cid w ->
   exists assistant_message w' history',
     @create_message env scan_order_engine cid message w
       = (inr assistant_message, w') /\
     @history_messages scan_order_engine cid w' = (inr history', w') /\
     (clock env (ticks w) <= clock env (S (ticks w)) ->
      precedes (user_row env cid message w) assistant_message history') /\
     (clock env (S (ticks w)) < clock env (ticks w) ->
      precedes assistant_message (user_row env cid message w) history')).
Proof.
  split.
  - eexists. split; [apply (@history_messages_run scan_order_engine)|].
    assert (Hperm : Permutation (messages_of cid (db_messages w))
              (@order_by_created_at scan_order_engine
                 (messages_of cid (db_messages w))))
      by apply order_by_permutation.
    split.
    { intro m. rewrite <- messages_of_In. split; intro Hin.
      - now apply (Permutation_in _ (Permutation_sym Hperm)).
      - now apply (Permutation_in _ Hperm). }
    split; [exact Hperm|].
    split; [apply order_by_sorted|].
    split.
    + intros x y. apply sorted_precedes, order_by_sorted.
    + intros x y Hxy Hx Hy Hle.
      apply sort_scan_order_stable; [|exact Hle].
      apply precedes_filter; [exact Hxy | |]; now apply opt_Z_eqb_Some.
  - intro Hex. eexists. eexists. eexists.
    split; [apply (@create_message_run scan_order_engine env cid message w
                     Hex)|].
    split; [apply (@history_messages_run scan_order_engine)|].
    cbn [db_messages].
    assert (Hrows : messages_of cid
                      ((db_messages w ++ [user_row env cid message w])
                         ++ [@assistant_row scan_order_engine env cid message w])
                    = messages_of cid (db_messages w)
                        ++ [user_row env cid message w;
                            @assistant_row scan_order_engine env cid
                              message w]).
    { rewrite <- app_assoc, messages_of_app. f_equal.
      unfold messages_of. cbn. now rewrite Z.eqb_refl. }
    split.
    + intro Hle. apply sort_scan_order_stable; [|exact Hle].
      rewrite Hrows.
      now exists (messages_of cid (db_messages w)), [], [].
    + intro Hlt. apply sorted_precedes.
      * apply (@order_by_sorted scan_order_engine).
      * eapply Permutation_in;
          [apply (@order_by_permutation scan_order_engine)|].
        rewrite Hrows. apply in_or_app. right. right. now left.
      * eapply Permutation_in;
          [apply (@order_by_permutation scan_order_engine)|].
        rewrite Hrows. apply in_or_app. right. now left.
      * exact Hlt.
Qed.

(** With the coarse clock both rows of the exchange carry the same
    [created_at], and the user message still stands first. *)
Lemma history_order_witness :
  exists assistant_message w' history',
    @create_message env_coarse scan_order_engine 1 hello w_fresh
      = (inr assistant_message, w') /\
    @history_messages scan_order_engine 1 w' = (inr history', w') /\
    (100 <= 100 ->
     precedes (user_row env_coarse 1 hello w_fresh) assistant_message
       history') /\
    (100 < 100 ->
     precedes assistant_message (user_row env_coarse 1 hello w_fresh)
       history').
Proof.
  destruct (history_order env_coarse 1 hello w_fresh) as [_ H].
  apply H. exact w_fresh_has_1.
Defined.

(** The collision, evaluated: the message, then the reply. *)
Example history_collision :
  let w1 :=
    snd (@create_message env_coarse scan_order_engine 1 hello w_fresh) in
  @history_messages scan_order_engine 1 w1
    = (inr [Message.mk (Some 1) (Some 1) "hello" "user" 100;
            Message.mk (Some 2) (Some 1) "hi" "assistant" 100], w1) /\
  llm_calls (snd (@create_message env_coarse scan_order_engine 1 again w1))
    = [[LlmMessage.mk "user" "hello"];
       [LlmMessage.mk "user" "hello";
        LlmMessage.mk "assistant" "hi";
        LlmMessage.mk "user" "again"]].
Proof. cbv zeta. split; reflexivity. Qed.

(** ** Reading one conversation *)




(** ** Creating and listing conversations *)

Lemma conversation_ids_In i rows :
  In i (conversation_ids rows) <-> In (Some i) (map Conversation.id rows).
Proof.
  unfold conversation_ids. rewrite in_flat_map, in_map_iff. split.
  - intros [c [Hc Hi]]. exists c. split; [|exact Hc].
    destruct (Conversation.id c) as [j|]; [|destruct Hi].
    destruct Hi as [->|[]]. reflexivity.
  - intros [c [Hi Hc]]. exists c. split; [exact Hc|].
    rewrite Hi. now left.
Qed.

Lemma id_clash_iff i w :
  existsb (Z.eqb i) (conversation_ids (db_conversations w)) = true <->
  conversation_exists i w.
Proof.
  unfold conversation_exists. rewrite <- conversation_ids_In, existsb_exists.
  split.
  - intros [x [Hx Heq]]. apply Z.eqb_eq in Heq. now subst x.
  - intro H. exists i. split; [exact H | apply Z.eqb_refl].
Qed.

Lemma insert_conversation_perm i c rows :
  Permutation (c :: rows) (insert_conversation i c rows).
Proof.
  induction rows as [|r rows IH]; simpl.
  - apply Permutation_refl.
  - destruct (Conversation.id r) as [j|].
    + destruct (i <? j).
      * apply Permutation_refl.
      * eapply perm_trans; [apply perm_swap|]. now apply perm_skip.
    + eapply perm_trans; [apply perm_swap|]. now apply perm_skip.
Qed.

(** Leaves of case analyses on optional fields. *)
Ltac option_leaf :=
  intros; subst; try discriminate; try reflexivity;
  repeat match goal with
         | H : Some _ = Some _ |- _ => injection H as H; subst
         end;
  try reflexivity.

(** C9, as stated, fails for a body that carries [created_at]: the value
    is not used, the commit is refused with a [StatementError] and no
    conversation is stored, although the id the body asks for is free. *)
Lemma create_conversation_created_at_refused :
  let body :=
    ConversationBody.mk (Some 42) (Some "mine") (Some "2024-05-01T12:00:00") in
  ~ conversation_exists 42 w_fresh /\
  create_conversation env_ok body w_fresh = (inl StatementError, w_fresh).
Proof.
  cbv zeta. split; [|reflexivity].
  intros [H|[]]. discriminate H.
Qed.

(** C9, amended.  [create_conversation] takes the id and the title of the
    request body as they are.  For a body without [created_at]: an id
    carried by the body is the id of the stored row, and when that id is
    already taken nothing is stored and the insert fails; only a body
    without an id gets one from the store, which is fresh; [created_at] is
    the time the clock shows when the object is built; the stored row is
    what the handler returns, and the other rows are kept.  A body that
    carries [created_at] is never stored: the value reaches the INSERT
    unparsed and the commit is refused, with the world left as it was. *)
Theorem create_conversation_fields env body w :
  let taken :=
    exists i, ConversationBody.id body = Some i /\ conversation_exists i w in
  (forall raw, ConversationBody.created_at body = Some raw ->
     create_conversation env body w = (inl StatementError, w)) /\
  (ConversationBody.created_at body = None ->
     ticks (snd (create_conversation env body w)) = S (ticks w) /\
     db_messages (snd (create_conversation env body w)) = db_messages w /\
     (taken ->
        fst (create_conversation env body w) = inl IntegrityError /\
        db_conversations (snd (create_conversation env body w))
          = db_conversations w) /\
     (~ taken ->
        exists row,
          fst (create_conversation env body w) = inr row /\
          Permutation (row :: db_conversations w)
            (db_conversations (snd (create_conversation env body w))) /\
          Conversation.title row = ConversationBody.title body /\
          (forall i, ConversationBody.id body = Some i ->
             Conversation.id row = Some i) /\
          (ConversationBody.id body = None ->
             exists i, Conversation.id row = Some i /\
                       i = next_rowid
                             (conversation_ids (db_conversations w)) /\
                       ~ conversation_exists i w) /\
          Conversation.created_at row = clock env (ticks w))).
Proof.
  destruct body as [bid btitle bcreated]. cbn zeta.
  cbn [ConversationBody.id ConversationBody.title ConversationBody.created_at].
  split.
  - intros raw ->. reflexivity.
  - intros ->.
    unfold create_conversation, conversation_of_body, bind_conversation,
      bind, now, ret, add_commit_refresh_conversation.
    cbn [ConversationBody.id ConversationBody.title
         ConversationBody.created_at ConversationArg.id ConversationArg.title
         ConversationArg.created_at Conversation.id Conversation.title
         Conversation.created_at db_conversations db_messages ticks].
    destruct bid as [i|].
    + destruct (existsb (Z.eqb i) (conversation_ids (db_conversations w)))
        eqn:Hclash; cbn [fst snd ticks db_messages db_conversations].
      * assert (Htaken : conversation_exists i w) by now apply id_clash_iff.
        split; [reflexivity|]. split; [reflexivity|].
        split; [intros _; split; reflexivity|].
        intro Hno. exfalso. apply Hno. exists i. now split.
      * assert (Hfree : ~ conversation_exists i w).
        { intro H. apply id_clash_iff in H. congruence. }
        split; [reflexivity|]. split; [reflexivity|].
        split; [intros [j [Hj Hex]]; injection Hj as <-; contradiction|].
        intros _. eexists. split; [reflexivity|].
        split; [apply insert_conversation_perm|].
        repeat split; option_leaf.
    + assert (Hfresh : ~ conversation_exists
                  (next_rowid (conversation_ids (db_conversations w))) w).
      { unfold conversation_exists. rewrite <- conversation_ids_In.
        apply next_rowid_fresh. }
      cbn [fst snd ticks db_messages db_conversations].
      split; [reflexivity|]. split; [reflexivity|].
      split; [intros [j [Hj _]]; discriminate Hj|].
      intros _. eexists. split; [reflexivity|].
      split; [apply insert_conversation_perm|].
      split; [reflexivity|].
      split; [option_leaf|].
      split; [|reflexivity].
      intros _. eexists. split; [reflexivity|].
      split; [reflexivity | exact Hfresh].
Qed.

Lemma create_conversation_fields_witness :
  let body := ConversationBody.mk (Some 42) (Some "mine") None in
  let r := create_conversation env_ok body w_fresh in
  ticks (snd r) = S (ticks w_fresh) /\
  db_messages (snd r) = db_messages w_fresh /\
  exists row,
    fst r = inr row /\
    Permutation (row :: db_conversations w_fresh) (db_conversations (snd r)) /\
    Conversation.title row = Some "mine" /\
    Conversation.id row = Some 42 /\
    Conversation.created_at row = 100.
Proof.
  cbv zeta.
  destruct (create_conversation_fields env_ok
              (ConversationBody.mk (Some 42) (Some "mine") None) w_fresh)
    as [_ H].
  destruct (H eq_refl) as [Ht [Hm [_ Hfree]]].
  split; [exact Ht|]. split; [exact Hm|].
  destruct Hfree as [row [Hr [Hp [Htitle [Hid [_ Hc]]]]]].
  - intros [i [Hi [Hex|[]]]]. injection Hi as <-. discriminate Hex.
  - exists row. repeat split; try assumption. now apply Hid.
Defined.

(** A body with an id of the client's choosing is stored under that id; the
    same body sent again is refused. *)
Example create_conversation_client_id :
  let body := ConversationBody.mk (Some 42) (Some "mine") None in
  let r := create_conversation env_ok body w_fresh in
  fst r = inr (Conversation.mk (Some 42) (Some "mine") 100) /\
  db_conversations (snd r) =
    [Conversation.mk (Some 1) (Some "first") 0;
     Conversation.mk (Some 42) (Some "mine") 100] /\
  fst (create_conversation env_ok body (snd r)) = inl IntegrityError.
Proof. cbv zeta. repeat split. Qed.

(** A body with a title only gets the next id and the clock's time. *)
Example create_conversation_defaults :
  let body := ConversationBody.mk None (Some "yours") None in
  let r := create_conversation env_ok body w_fresh in
  fst r = inr (Conversation.mk (Some 2) (Some "yours") 100) /\
  ticks (snd r) = S (ticks w_fresh).
Proof. cbv zeta. repeat split. Qed.

(** C10, as stated, fails for a negative limit, which the handler accepts as
    any other integer: with [limit = -1] the one conversation of [w_fresh]
    is returned, and one is more than minus one. *)
Lemma read_conversations_negative_limit :
  read_conversations 0 (-1) w_fresh
    = (inr [Conversation.mk (Some 1) (Some "first") 0], w_fresh) /\
  ~ Z.of_nat (List.length [Conversation.mk (Some 1) (Some "first") 0]) <= -1.
Proof. split; [reflexivity | cbn; lia]. Qed.

(** C10, amended.  Without query parameters [read_conversations] runs with
    offset 0 and limit 100 and returns at most 100 conversations.  For any
    offset and any limit that is not negative it returns at most [limit]
    conversations: the rows of the table after the first [offset] ones, cut
    to [limit] (a negative offset skips nothing).  The store is not
    changed. *)
Theorem read_conversations_window offset limit w :
  0 <= limit ->
  (exists rows,
     read_conversations offset limit w = (inr rows, w) /\
     rows = firstn (Z.to_nat limit)
              (skipn (Z.to_nat offset) (db_conversations w)) /\
     Z.of_nat (List.length rows) <= limit) /\
  (exists rows,
     read_conversations_default w = (inr rows, w) /\
     rows = firstn 100 (db_conversations w) /\
     Z.of_nat (List.length rows) <= 100).
Proof.
  intro Hlimit. split.
  - eexists. split; [reflexivity|].
    unfold sql_limit, sql_offset.
    destruct (Z.ltb_spec limit 0) as [Hneg|_]; [lia|].
    split; [reflexivity|].
    pose proof (firstn_le_length (Z.to_nat limit)
                  (skipn (Z.to_nat offset) (db_conversations w))). lia.
  - eexists. split; [reflexivity|].
    unfold sql_limit, sql_offset.
    change (100 <? 0) with false. cbv iota.
    change (Z.to_nat 0) with 0%nat. change (Z.to_nat 100) with 100%nat.
    cbn [skipn]. split; [reflexivity|].
    pose proof (firstn_le_length 100 (db_conversations w)). lia.
Qed.

Lemma read_conversations_window_witness :
  (exists rows,
     read_conversations 1 1 w_shared = (inr rows, w_shared) /\
     rows = firstn 1 (skipn 1 (db_conversations w_shared)) /\
     Z.of_nat (List.length rows) <= 1) /\
  (exists rows,
     read_conversations_default w_shared = (inr rows, w_shared) /\
     rows = firstn 100 (db_conversations w_shared) /\
     Z.of_nat (List.length rows) <= 100).
Proof.
  apply (read_conversations_window 1 1 w_shared). lia.
Defined.

(** ** The earlier revision of the module (backend/main.py) *)

(** [create_conversation], [read_conversations] and [delete_conversation]
    are the same text in both revisions.  [read_conversation] differs: the
    earlier one fetches the row by primary key and returns it as it is,
    under [response_model=Conversation], without its messages. *)
Module Earlier.
Definition read_conversation (conversation_id : Z) : M Conversation.t :=
  conversation <- get_conversation conversation_id ;;
  match conversation with
  | None => raise not_found
  | Some c => ret c
  end.
End Earlier.

(** ** The routes of [app] *)

(** One constructor per decorated handler of [backend/src/backend/main.py];
    the two query parameters of the listing may be left out. *)
Inductive Request :=
| PostConversation (body : ConversationBody.t)
| GetConversations (offset limit : option Z)
| GetConversation (conversation_id : Z)
| DeleteConversation (conversation_id : Z)
| PostMessage (conversation_id : Z) (message : MessageCreate.t).

(** What a handler's value is serialised to, by [response_model]. *)
Inductive Response :=
| ConversationOut (c : Conversation.t)
| ConversationsOut (l : list Conversation.t)
| ConversationReadOut (c : ConversationRead.t)
| OkOut (b : OkBody)
| MessageReadOut (m : MessageRead.t).

Definition query_default (default : Z) (given : option Z) : Z :=
  match given with
  | Some v => v
  | None => default
  end.

Definition dispatch (env : Env) {engine : SqlEngine} (r : Request)
    : M Response :=
  match r with
  | PostConversation body =>
      c <- create_conversation env body ;;
      ret (ConversationOut c)
  | GetConversations offset limit =>
      l <- read_conversations (query_default 0 offset)
                              (query_default 100 limit) ;;
      ret (ConversationsOut l)
  | GetConversation conversation_id =>
      c <- read_conversation conversation_id ;;
      ret (ConversationReadOut c)
  | DeleteConversation conversation_id =>
      b <- delete_conversation conversation_id ;;
      ret (OkOut b)
  | PostMessage conversation_id message =>
      m <- create_message env conversation_id message ;;
      match message_read m with
      | Some body => ret (MessageReadOut body)
      | None => raise ResponseValidationError
      end
  end.

(** Requests served one after the other; a request that ends in an error
    leaves the world its handler left and the next one is served. *)
Fixpoint serve (env : Env) {engine : SqlEngine} (rs : list Request)
    (w : World) : World :=
  match rs with
  | [] => w
  | r :: rest => serve env rest (snd (dispatch env r w))
  end.

(** ** Properties of stores *)

(** Every row has a primary key and no key is used twice in a table. *)
Definition keys_unique (w : World) : Prop :=
  (forall c, In c (db_conversations w) -> Conversation.id c <> None) /\
  NoDup (conversation_ids (db_conversations w)) /\
  (forall m, In m (db_messages w) -> Message.id m <> None) /\
  NoDup (message_ids (db_messages w)).

(** A message that names a conversation names one of the store. *)
Definition attached_to_existing (w : World) : Prop :=
  forall m cid, In m (db_messages w) ->
    Message.conversation_id m = Some cid -> conversation_exists cid w.

(** What a message row keeps for life: everything but its foreign key. *)
Definition message_payload (m : Message.t)
    : option Z * string * string * datetime :=
  (Message.id m, Message.content m, Message.role m, Message.created_at m).

(** The message table is in order of [created_at], and no row is ahead of
    the next clock reading. *)
Definition chronological (env : Env) (w : World) : Prop :=
  StronglySorted created_at_le (db_messages w) /\
  forall m, In m (db_messages w) ->
    Message.created_at m <= clock env (ticks w).

Definition clock_monotone (env : Env) : Prop :=
  forall n, clock env n <= clock env (S n).

(** ** Each handler's effect on the world *)

Lemma conversation_exists_dec cid w :
  {conversation_exists cid w} + {~ conversation_exists cid w}.
Proof.
  destruct (lookup_conversation cid (db_conversations w)) as [c|] eqn:Hl.
  - left. apply lookup_conversation_Some in Hl. destruct Hl as [Hin Hid].
    unfold conversation_exists. rewrite <- Hid. now apply in_map.
  - right. now apply lookup_conversation_None.
Qed.

Lemma create_message_absent {engine : SqlEngine} env cid message w :
  lookup_conversation cid (db_conversations w) = None ->
  create_message env cid message w = (inl not_found, w).
Proof.
  intro H. unfold create_message, bind, get_conversation. now rewrite H.
Qed.

Lemma delete_conversation_absent cid w :
  lookup_conversation cid (db_conversations w) = None ->
  delete_conversation cid w = (inl not_found, w).
Proof.
  intro H. unfold delete_conversation, bind, get_conversation. now rewrite H.
Qed.

Lemma read_conversation_absent cid w :
  lookup_conversation cid (db_conversations w) = None ->
  read_conversation cid w = (inl not_found, w).
Proof.
  intro H. unfold read_conversation, bind, get_conversation. now rewrite H.
Qed.

Lemma read_conversation_present cid w c :
  lookup_conversation cid (db_conversations w) = Some c ->
  read_conversation cid w
    = (inr (ConversationRead.mk cid (Conversation.title c)
              (Conversation.created_at c)
              (messages_of cid (db_messages w))), w).
Proof.
  intro H. destruct (lookup_conversation_Some _ _ _ H) as [_ Hid].
  unfold read_conversation, bind, get_conversation. now rewrite H, Hid.
Qed.

Lemma read_conversation_world cid w : snd (read_conversation cid w) = w.
Proof.
  destruct (lookup_conversation cid (db_conversations w)) as [c|] eqn:Hl.
  - now rewrite (read_conversation_present _ _ _ Hl).
  - now rewrite (read_conversation_absent _ _ Hl).
Qed.

(** A successful insert: the row has a key that was free, and lands in the
    conversation table; nothing else moves but, possibly, the clock. *)
Lemma create_conversation_ok env body w row w' :
  create_conversation env body w = (inr row, w') ->
  exists i,
    Conversation.id row = Some i /\
    ~ conversation_exists i w /\
    (ConversationBody.id body = Some i \/
     ConversationBody.id body = None /\
     i = next_rowid (conversation_ids (db_conversations w))) /\
    Conversation.title row = ConversationBody.title body /\
    db_conversations w' = insert_conversation i row (db_conversations w) /\
    db_messages w' = db_messages w /\
    llm_calls w' = llm_calls w /\
    stdout w' = stdout w /\
    (ticks w' = ticks w \/ ticks w' = S (ticks w)).
Proof.
  destruct body as [bid btitle bcreated].
  unfold create_conversation, conversation_of_body, bind_conversation, bind,
    now, ret, add_commit_refresh_conversation.
  cbn [ConversationBody.id ConversationBody.title ConversationBody.created_at].
  assert (Hfresh : ~ conversation_exists
                (next_rowid (conversation_ids (db_conversations w))) w).
  { unfold conversation_exists. rewrite <- conversation_ids_In.
    apply next_rowid_fresh. }
  destruct bcreated as [raw|]; [discriminate|].
  cbn [ConversationArg.id ConversationArg.title ConversationArg.created_at
       Conversation.id Conversation.title Conversation.created_at
       db_conversations db_messages ticks llm_calls stdout].
  destruct bid as [i|].
  - destruct (existsb (Z.eqb i) (conversation_ids (db_conversations w)))
      eqn:Hclash; [discriminate|].
    assert (Hfree : ~ conversation_exists i w)
      by (intro H; apply id_clash_iff in H; congruence).
    intros [= <- <-]. eexists. split; [reflexivity|].
    cbn [Conversation.id Conversation.title db_conversations db_messages
         ticks llm_calls stdout].
    split; [exact Hfree|]. repeat split; auto.
  - intros [= <- <-]. eexists. split; [reflexivity|].
    cbn [Conversation.id Conversation.title db_conversations db_messages
         ticks llm_calls stdout].
    split; [exact Hfresh|]. repeat split; auto.
Qed.

(** A refused insert leaves both tables as they were. *)
Lemma create_conversation_tables env body w :
  db_messages (snd (create_conversation env body w)) = db_messages w /\
  llm_calls (snd (create_conversation env body w)) = llm_calls w /\
  (ticks (snd (create_conversation env body w)) = ticks w \/
   ticks (snd (create_conversation env body w)) = S (ticks w)) /\
  ((exists e, fst (create_conversation env body w) = inl e) ->
   db_conversations (snd (create_conversation env body w))
     = db_conversations w).
Proof.
  destruct body as [bid btitle bcreated].
  unfold create_conversation, conversation_of_body, bind_conversation, bind,
    now, ret, add_commit_refresh_conversation.
  cbn [ConversationBody.id ConversationBody.title ConversationBody.created_at].
  destruct bcreated as [raw|].
  - cbn. repeat split; auto.
  - cbn [ConversationArg.id ConversationArg.title ConversationArg.created_at
         Conversation.id Conversation.title Conversation.created_at
         db_conversations db_messages ticks llm_calls stdout].
    destruct bid as [i|];
      [destruct (existsb (Z.eqb i)
                   (conversation_ids (db_conversations w)))|].
    all: cbn [fst snd db_conversations db_messages ticks llm_calls].
    all: repeat split; auto.
    all: intros [e He]; discriminate He.
Qed.

Lemma snd_bind_ret {A B} (m : M A) (f : A -> B) w :
  snd (bind m (fun a => ret (f a)) w) = snd (m w).
Proof. unfold bind, ret. now destruct (m w) as [[e|a] w']. Qed.

(** The world after a request is the world its handler leaves. *)
Lemma dispatch_world {engine : SqlEngine} env r w :
  snd (dispatch env r w) =
  match r with
  | PostConversation body => snd (create_conversation env body w)
  | GetConversations _ _ => w
  | GetConversation _ => w
  | DeleteConversation cid => snd (delete_conversation cid w)
  | PostMessage cid message => snd (create_message env cid message w)
  end.
Proof.
  destruct r as [body|offset limit|cid|cid|cid message];
    unfold dispatch.
  - apply snd_bind_ret.
  - reflexivity.
  - rewrite snd_bind_ret. apply read_conversation_world.
  - apply snd_bind_ret.
  - unfold bind. destruct (create_message env cid message w) as [[e|m] w'];
      [reflexivity|].
    now destruct (message_read m).
Qed.

(** ** The four ways a request changes the world *)

Definition detach_from (cid : Z) (m : Message.t) : Message.t :=
  if opt_Z_eqb (Message.conversation_id m) (Some cid)
  then Message.detach m else m.

Inductive transition {engine : SqlEngine} (env : Env)
    : World -> World -> Prop :=
| tr_tables_kept w w' :
    db_conversations w' = db_conversations w ->
    db_messages w' = db_messages w ->
    llm_calls w' = llm_calls w ->
    (ticks w' = ticks w \/ ticks w' = S (ticks w)) ->
    transition env w w'
| tr_conversation_added w w' i row :
    Conversation.id row = Some i ->
    ~ conversation_exists i w ->
    db_conversations w' = insert_conversation i row (db_conversations w) ->
    db_messages w' = db_messages w ->
    llm_calls w' = llm_calls w ->
    (ticks w' = ticks w \/ ticks w' = S (ticks w)) ->
    transition env w w'
| tr_conversation_deleted w w' cid :
    conversation_exists cid w ->
    db_conversations w' =
      filter (fun c => negb (opt_Z_eqb (Conversation.id c) (Some cid)))
             (db_conversations w) ->
    db_messages w' = map (detach_from cid) (db_messages w) ->
    llm_calls w' = llm_calls w ->
    ticks w' = ticks w ->
    transition env w w'
| tr_exchanged w w' cid message :
    conversation_exists cid w ->
    db_conversations w' = db_conversations w ->
    db_messages w' =
      db_messages w ++ [user_row env cid message w;
                        assistant_row env cid message w] ->
    llm_calls w' = llm_calls w ++ [exchange_history env cid message w] ->
    ticks w' = S (S (ticks w)) ->
    transition env w w'.

Lemma dispatch_transition {engine : SqlEngine} env r w :
  transition env w (snd (dispatch env r w)).
Proof.
  rewrite dispatch_world.
  destruct r as [body|offset limit|cid|cid|cid message].
  - destruct (create_conversation env body w) as [[e|row] w'] eqn:Hrun.
    + destruct (create_conversation_tables env body w)
        as [Hm [Hl [Ht Hc]]].
      rewrite Hrun in Hm, Hl, Ht, Hc. cbn [fst snd] in *.
      apply tr_tables_kept; auto. apply Hc. now exists e.
    + destruct (create_conversation_ok _ _ _ _ _ Hrun)
        as [i [Hid [Hfree [_ [_ [Hc [Hm [Hl [_ Ht]]]]]]]]].
      cbn [snd]. now apply (tr_conversation_added env w w' i row).
  - apply tr_tables_kept; auto.
  - apply tr_tables_kept; auto.
  - destruct (conversation_exists_dec cid w) as [Hex|Hno].
    + rewrite (delete_conversation_run cid w Hex). cbn [snd].
      now apply (tr_conversation_deleted env _ _ cid).
    + apply handlers_not_found in Hno.
      rewrite (delete_conversation_absent cid w Hno).
      apply tr_tables_kept; auto.
  - destruct (conversation_exists_dec cid w) as [Hex|Hno].
    + rewrite (create_message_run env cid message w Hex). cbn [snd].
      apply (tr_exchanged env _ _ cid message); auto.
      cbn [db_messages]. now rewrite <- app_assoc.
    + apply handlers_not_found in Hno.
      rewrite (create_message_absent env cid message w Hno).
      apply tr_tables_kept; auto.
Qed.

(** A property kept by every transition holds after any run of requests. *)
Lemma serve_invariant {engine : SqlEngine} env (P : World -> Prop) :
  (forall w w', transition env w w' -> P w -> P w') ->
  forall rs w, P w -> P (serve env rs w).
Proof.
  intros Hstep rs. induction rs as [|r rs IH]; intros w Hw; simpl.
  - exact Hw.
  - apply IH. eapply Hstep; [apply dispatch_transition | exact Hw].
Qed.

(** ** Keys stay unique *)

Lemma conversation_ids_insert i row rows :
  Conversation.id row = Some i ->
  Permutation (i :: conversation_ids rows)
              (conversation_ids (insert_conversation i row rows)).
Proof.
  intro Hid.
  change (i :: conversation_ids rows) with ([i] ++ conversation_ids rows).
  replace [i] with (match Conversation.id row with
                    | Some j => [j]
                    | None => []
                    end) by now rewrite Hid.
  change (Permutation (conversation_ids (row :: rows))
                      (conversation_ids (insert_conversation i row rows))).
  unfold conversation_ids. apply Permutation_flat_map.
  apply insert_conversation_perm.
Qed.

Lemma conversation_ids_filter f rows :
  NoDup (conversation_ids rows) ->
  NoDup (conversation_ids (filter f rows)).
Proof.
  induction rows as [|c rows IH]; simpl; [auto|].
  intro H. destruct (Conversation.id c) as [i|] eqn:Hid.
  - cbn [app] in H. apply NoDup_cons_iff in H. destruct H as [Hni Hnd].
    destruct (f c); simpl; [|now apply IH].
    rewrite Hid. cbn [app]. constructor; [|now apply IH].
    intro Hin. apply Hni.
    unfold conversation_ids in *. rewrite in_flat_map in *.
    destruct Hin as [x [Hx Hi]]. exists x. split; [|exact Hi].
    apply filter_In in Hx. tauto.
  - cbn [app] in H. destruct (f c); simpl; [rewrite Hid|]; now apply IH.
Qed.

Lemma message_ids_detach cid rows :
  message_ids (map (detach_from cid) rows) = message_ids rows.
Proof.
  induction rows as [|m rows IH]; simpl; [reflexivity|].
  rewrite IH. unfold detach_from.
  now destruct (opt_Z_eqb (Message.conversation_id m) (Some cid)).
Qed.

Lemma exchange_ids_differ env cid message w :
  next_rowid (message_ids (db_messages w ++ [user_row env cid message w]))
    <> next_rowid (message_ids (db_messages w)).
Proof.
  assert (H : next_rowid (message_ids (db_messages w)) <
              next_rowid (message_ids
                (db_messages w ++ [user_row env cid message w]))).
  { apply next_rowid_above. rewrite message_ids_app.
    apply in_or_app. right. now left. }
  lia.
Qed.

Lemma transition_keys_unique {engine : SqlEngine} env w w' :
  transition env w w' -> keys_unique w -> keys_unique w'.
Proof.
  intros Ht [Hc [Hcn [Hm Hmn]]].
  destruct Ht as [w w' Ec Em _ _
                 | w w' i row Hid Hfree Ec Em _ _
                 | w w' cid Hex Ec Em _ _
                 | w w' cid message Hex Ec Em _ _];
    unfold keys_unique; rewrite Ec, Em.
  - auto.
  - repeat split; auto.
    + intros c Hin.
      apply (Permutation_in _ (Permutation_sym
               (insert_conversation_perm i row _))) in Hin.
      destruct Hin as [<-|Hin]; [congruence | now apply Hc].
    + eapply Permutation_NoDup; [apply conversation_ids_insert, Hid|].
      constructor; [|exact Hcn].
      now rewrite conversation_ids_In.
  - repeat split.
    + intros c Hin. apply filter_In in Hin. now apply Hc.
    + now apply conversation_ids_filter.
    + intros m Hin. apply in_map_iff in Hin. destruct Hin as [m0 [<- Hin]].
      unfold detach_from.
      destruct (opt_Z_eqb (Message.conversation_id m0) (Some cid));
        exact (Hm _ Hin).
    + now rewrite message_ids_detach.
  - repeat split; auto.
    + intros m Hin. apply in_app_or in Hin.
      destruct Hin as [Hin|[<-|[<-|[]]]]; [now apply Hm | |]; discriminate.
    + rewrite message_ids_app. cbn.
      apply NoDup_app; [exact Hmn | |].
      * constructor.
        -- intros [Heq|[]]. now apply (exchange_ids_differ env cid message w).
        -- constructor; [intros []|constructor].
      * intros x Hx [<-|[<-|[]]].
        -- now apply next_rowid_fresh in Hx.
        -- eapply next_rowid_fresh, message_ids_app_l, Hx.
Qed.

(** ** Messages name conversations of the store *)

Lemma conversation_exists_insert i row rows cid w w' :
  db_conversations w = rows ->
  db_conversations w' = insert_conversation i row rows ->
  conversation_exists cid w -> conversation_exists cid w'.
Proof.
  unfold conversation_exists. intros -> -> H.
  eapply Permutation_in.
  - apply Permutation_map, insert_conversation_perm.
  - right. exact H.
Qed.

Lemma transition_attached {engine : SqlEngine} env w w' :
  transition env w w' -> attached_to_existing w -> attached_to_existing w'.
Proof.
  intros Ht Hatt.
  destruct Ht as [w w' Ec Em _ _
                 | w w' i row Hid Hfree Ec Em _ _
                 | w w' cid Hex Ec Em _ _
                 | w w' cid message Hex Ec Em _ _];
    intros m c Hin Hc; rewrite Em in Hin.
  - unfold conversation_exists. rewrite Ec. now apply (Hatt m).
  - eapply conversation_exists_insert; [reflexivity | exact Ec|].
    now apply (Hatt m).
  - apply in_map_iff in Hin. destruct Hin as [m0 [<- Hin]].
    unfold detach_from in Hc.
    destruct (opt_Z_eqb (Message.conversation_id m0) (Some cid)) eqn:E;
      [discriminate Hc|].
    assert (Hne : c <> cid).
    { intros ->. apply opt_Z_eqb_Some in Hc. congruence. }
    specialize (Hatt m0 c Hin Hc).
    unfold conversation_exists in *. rewrite Ec.
    apply in_map_iff in Hatt. destruct Hatt as [x [Hx Hxin]].
    apply in_map_iff. exists x. split; [exact Hx|].
    apply filter_In. split; [exact Hxin|].
    rewrite Hx. simpl. apply negb_true_iff, Z.eqb_neq, Hne.
  - unfold conversation_exists. rewrite Ec.
    apply in_app_or in Hin. destruct Hin as [Hin|[<-|[<-|[]]]].
    + now apply (Hatt m).
    + injection Hc as <-. exact Hex.
    + injection Hc as <-. exact Hex.
Qed.

(** ** No message row is ever removed or rewritten *)

Lemma payload_detach cid rows :
  map message_payload (map (detach_from cid) rows)
    = map message_payload rows.
Proof.
  rewrite map_map. apply map_ext. intro m. unfold detach_from.
  now destruct (opt_Z_eqb (Message.conversation_id m) (Some cid)).
Qed.

Lemma transition_rows_and_calls {engine : SqlEngine} env w w' :
  transition env w w' ->
  exists added k,
    map message_payload (db_messages w')
      = map message_payload (db_messages w) ++ added /\
    List.length added = (2 * k)%nat /\
    List.length (llm_calls w') = (List.length (llm_calls w) + k)%nat.
Proof.
  intro Ht.
  destruct Ht as [w w' _ Em El _
                 | w w' i row _ _ _ Em El _
                 | w w' cid _ _ Em El _
                 | w w' cid message _ _ Em El _]; rewrite Em, El.
  - exists [], 0%nat. now rewrite app_nil_r, Nat.add_0_r.
  - exists [], 0%nat. now rewrite app_nil_r, Nat.add_0_r.
  - exists [], 0%nat. now rewrite payload_detach, app_nil_r, Nat.add_0_r.
  - exists (map message_payload [user_row env cid message w;
                                 assistant_row env cid message w]), 1%nat.
    rewrite map_app, length_app. repeat split.
Qed.

(** ** Under a clock that never runs backwards the table is chronological *)

Lemma sorted_app l1 l2 :
  StronglySorted created_at_le l1 ->
  StronglySorted created_at_le l2 ->
  (forall x y, In x l1 -> In y l2 -> created_at_le x y) ->
  StronglySorted created_at_le (l1 ++ l2).
Proof.
  induction 1 as [|a l1 Hs IH Hall]; intros H2 Hle; simpl; [exact H2|].
  constructor.
  - apply IH; [exact H2|]. intros x y Hx Hy. apply Hle; [now right|exact Hy].
  - apply Forall_app. split; [exact Hall|].
    apply Forall_forall. intros y Hy. apply Hle; [now left|exact Hy].
Qed.

Lemma sorted_detach cid l :
  StronglySorted created_at_le l ->
  StronglySorted created_at_le (map (detach_from cid) l).
Proof.
  assert (Hkey : forall m,
            Message.created_at (detach_from cid m) = Message.created_at m).
  { intro m. unfold detach_from.
    now destruct (opt_Z_eqb (Message.conversation_id m) (Some cid)). }
  induction 1 as [|a l Hs IH Hall]; simpl; constructor; [exact IH|].
  rewrite Forall_forall in *. intros y Hy.
  apply in_map_iff in Hy. destruct Hy as [y0 [<- Hy0]].
  unfold created_at_le. rewrite !Hkey. now apply Hall.
Qed.

Lemma transition_chronological {engine : SqlEngine} env w w' :
  clock_monotone env ->
  transition env w w' -> chronological env w -> chronological env w'.
Proof.
  intros Hmono Ht [Hs Hb].
  destruct Ht as [w w' _ Em _ Hticks
                 | w w' i row _ _ _ Em _ Hticks
                 | w w' cid _ _ Em _ Hticks
                 | w w' cid message _ _ Em _ Hticks];
    unfold chronological; rewrite Em.
  - split; [exact Hs|]. intros m Hm. specialize (Hb m Hm).
    destruct Hticks as [->| ->]; [exact Hb|].
    specialize (Hmono (ticks w)). lia.
  - split; [exact Hs|]. intros m Hm. specialize (Hb m Hm).
    destruct Hticks as [->| ->]; [exact Hb|].
    specialize (Hmono (ticks w)). lia.
  - split; [now apply sorted_detach|]. intros m Hm. rewrite Hticks.
    apply in_map_iff in Hm. destruct Hm as [m0 [<- Hm0]].
    specialize (Hb m0 Hm0). unfold detach_from.
    now destruct (opt_Z_eqb (Message.conversation_id m0) (Some cid)).
  - pose proof (Hmono (ticks w)) as H1.
    pose proof (Hmono (S (ticks w))) as H2.
    split.
    + apply sorted_app; [exact Hs| |].
      * constructor; [constructor; constructor|].
        constructor; [|constructor]. unfold created_at_le. cbn. exact H1.
      * intros x y Hx [<-|[<-|[]]]; specialize (Hb x Hx);
          unfold created_at_le; cbn; lia.
    + intros m Hm. rewrite Hticks. apply in_app_or in Hm.
      destruct Hm as [Hm|[<-|[<-|[]]]]; [specialize (Hb m Hm)| |]; cbn; lia.
Qed.

(** ** What holds after any run of requests *)

(** X1. Whatever requests are served, in whatever order, every row keeps a
    primary key and no key is used twice in its table. *)
Theorem serve_keys_unique {engine : SqlEngine} env rs w :
  keys_unique w -> keys_unique (serve env rs w).
Proof.
  apply (serve_invariant env keys_unique).
  intros w1 w2. apply transition_keys_unique.
Qed.

(** X2. Whatever requests are served, a stored message that names a
    conversation names one that is in the store: deletions detach, they
    leave no message pointing at a conversation that is gone. *)
Theorem serve_attached_to_existing {engine : SqlEngine} env rs w :
  attached_to_existing w -> attached_to_existing (serve env rs w).
Proof.
  apply (serve_invariant env attached_to_existing).
  intros w1 w2. apply transition_attached.
Qed.

(** X3. No run of requests removes a message row or changes its id, content,
    role or [created_at]: the table only grows at its end.  It grows by two
    rows for each call made to the model client, and by nothing else. *)
Theorem serve_messages_only_grow {engine : SqlEngine} env rs w :
  exists added k,
    map message_payload (db_messages (serve env rs w))
      = map message_payload (db_messages w) ++ added /\
    List.length added = (2 * k)%nat /\
    List.length (llm_calls (serve env rs w))
      = (List.length (llm_calls w) + k)%nat.
Proof.
  revert w. induction rs as [|r rs IH]; intro w; simpl.
  - exists [], 0%nat. now rewrite app_nil_r, Nat.add_0_r.
  - destruct (transition_rows_and_calls env _ _ (dispatch_transition env r w))
      as [a1 [k1 [Hp1 [Hl1 Hc1]]]].
    destruct (IH (snd (dispatch env r w))) as [a2 [k2 [Hp2 [Hl2 Hc2]]]].
    exists (a1 ++ a2), (k1 + k2)%nat.
    rewrite Hp2, Hp1, <- app_assoc, length_app, Hc2, Hc1.
    repeat split; lia.
Qed.

(** X4. With a clock that never runs backwards, a message table that is in
    order of [created_at] stays so through any run of requests, and every
    conversation read afterwards lists its messages chronologically. *)
Theorem serve_chronological {engine : SqlEngine} env rs w cid :
  clock_monotone env ->
  chronological env w ->
  chronological env (serve env rs w) /\
  forall c,
    fst (read_conversation cid (serve env rs w)) = inr c ->
    StronglySorted created_at_le (ConversationRead.messages c).
Proof.
  intros Hmono Hw.
  assert (Hafter : chronological env (serve env rs w)).
  { revert Hw. apply (serve_invariant env (chronological env)).
    intros w1 w2. now apply transition_chronological. }
  split; [exact Hafter|].
  intros c Hread.
  destruct (lookup_conversation cid (db_conversations (serve env rs w)))
    as [row|] eqn:Hl.
  - rewrite (read_conversation_present _ _ _ Hl) in Hread.
    injection Hread as <-. cbn [ConversationRead.messages].
    apply sorted_filter, Hafter.
  - rewrite (read_conversation_absent _ _ Hl) in Hread. discriminate Hread.
Qed.

Lemma w_talk_keys_unique : keys_unique w_talk.
Proof.
  repeat split.
  - intros c [<-|[]]. discriminate.
  - repeat constructor. intros [].
  - intros m [<-|[<-|[]]]; discriminate.
  - repeat constructor; cbn; intuition discriminate.
Qed.

Lemma w_talk_attached : attached_to_existing w_talk.
Proof.
  intros m cid [<-|[<-|[]]] [= <-]; exact w_talk_has_1.
Qed.

Lemma env_ok_monotone : clock_monotone env_ok.
Proof. intro n. unfold env_ok. cbn [clock]. lia. Qed.

Lemma w_talk_chronological : chronological env_ok w_talk.
Proof.
  split.
  - repeat constructor. unfold created_at_le. cbn. lia.
  - intros m [<-|[<-|[]]]; cbn; lia.
Qed.

(** A run that creates, exchanges, deletes and reuses an id. *)
Definition busy_run : list Request :=
  [PostMessage 1 again;
   PostConversation (ConversationBody.mk None (Some "second") None);
   GetConversations None (Some 1);
   DeleteConversation 1;
   PostMessage 2 hello;
   PostConversation (ConversationBody.mk (Some 1) None None);
   PostMessage 1 hello;
   GetConversation 1].

Lemma serve_keys_unique_witness :
  keys_unique w_talk /\
  keys_unique (@serve env_ok scan_order_engine busy_run w_talk).
Proof.
  split; [exact w_talk_keys_unique|].
  apply (@serve_keys_unique scan_order_engine env_ok busy_run w_talk).
  exact w_talk_keys_unique.
Defined.

Lemma serve_attached_to_existing_witness :
  attached_to_existing w_talk /\
  attached_to_existing (@serve env_ok scan_order_engine busy_run w_talk).
Proof.
  split; [exact w_talk_attached|].
  apply (@serve_attached_to_existing scan_order_engine env_ok busy_run w_talk).
  exact w_talk_attached.
Defined.

Lemma serve_chronological_witness :
  clock_monotone env_ok /\
  chronological env_ok w_talk /\
  chronological env_ok (@serve env_ok scan_order_engine busy_run w_talk) /\
  forall c,
    fst (read_conversation 1
           (@serve env_ok scan_order_engine busy_run w_talk)) = inr c ->
    StronglySorted created_at_le (ConversationRead.messages c).
Proof.
  split; [exact env_ok_monotone|]. split; [exact w_talk_chronological|].
  apply (@serve_chronological scan_order_engine env_ok busy_run w_talk 1).
  - exact env_ok_monotone.
  - exact w_talk_chronological.
Defined.

(** What [busy_run] leaves: five detached rows of the two conversations that
    were deleted or re-created, and the two rows of the new conversation 1. *)
Example busy_run_outcome :
  let w := @serve env_ok scan_order_engine busy_run w_talk in
  map Conversation.id (db_conversations w) = [Some 1; Some 2] /\
  map (fun m => (Message.id m, Message.conversation_id m)) (db_messages w)
    = [(Some 1, None); (Some 2, None); (Some 3, None); (Some 4, None);
       (Some 5, Some 2); (Some 6, Some 2);
       (Some 7, Some 1); (Some 8, Some 1)] /\
  List.length (llm_calls w) = 4%nat.
Proof. cbv zeta. repeat split. Qed.

(** ** Create, then read *)

Lemma lookup_insert i row rows :
  Conversation.id row = Some i ->
  ~ In (Some i) (map Conversation.id rows) ->
  lookup_conversation i (insert_conversation i row rows) = Some row.
Proof.
  intros Hid. unfold lookup_conversation.
  assert (Hrow : opt_Z_eqb (Conversation.id row) (Some i) = true)
    by now apply opt_Z_eqb_Some.
  induction rows as [|r rows IH]; intro Hfree; simpl.
  - now rewrite Hrow.
  - assert (Hr : opt_Z_eqb (Conversation.id r) (Some i) = false).
    { destruct (opt_Z_eqb (Conversation.id r) (Some i)) eqn:E; [|reflexivity].
      apply opt_Z_eqb_Some in E. exfalso. apply Hfree. now left. }
    assert (Hrest : ~ In (Some i) (map Conversation.id rows))
      by (intro H; apply Hfree; now right).
    destruct (Conversation.id r) as [j|] eqn:Ej.
    + destruct (i <? j); simpl.
      * now rewrite Hrow.
      * rewrite Ej, Hr. now apply IH.
    + simpl. rewrite Ej, Hr. now apply IH.
Qed.

Lemma messages_of_none cid rows :
  (forall m, In m rows -> Message.conversation_id m <> Some cid) ->
  messages_of cid rows = [].
Proof.
  induction rows as [|m rows IH]; intro H; simpl; [reflexivity|].
  destruct (opt_Z_eqb (Message.conversation_id m) (Some cid)) eqn:E.
  - apply opt_Z_eqb_Some in E. exfalso. now apply (H m (or_introl eq_refl)).
  - apply IH. intros x Hx. apply H. now right.
Qed.

(** X5. In a store whose messages name only conversations of the store, a
    conversation that has just been created reads back as the row that was
    returned, with an empty list of messages, in both revisions of the read
    handler; this also holds when its id was the id of a conversation deleted
    earlier. *)
Theorem create_then_read env body w row w' :
  attached_to_existing w ->
  create_conversation env body w = (inr row, w') ->
  exists i,
    Conversation.id row = Some i /\
    read_conversation i w'
      = (inr (ConversationRead.mk i (ConversationBody.title body)
                (Conversation.created_at row) []), w') /\
    Earlier.read_conversation i w' = (inr row, w').
Proof.
  intros Hatt Hrun.
  destruct (create_conversation_ok _ _ _ _ _ Hrun)
    as [i [Hid [Hfree [_ [Htitle [Hc [Hm _]]]]]]].
  exists i. split; [exact Hid|].
  assert (Hl : lookup_conversation i (db_conversations w') = Some row).
  { rewrite Hc. now apply lookup_insert. }
  split.
  - rewrite (read_conversation_present _ _ _ Hl), Htitle, Hm.
    rewrite messages_of_none; [reflexivity|].
    intros m Hin Hcid. apply Hfree. now apply (Hatt m).
  - unfold Earlier.read_conversation, bind, get_conversation. now rewrite Hl.
Qed.

(** The conversation created after conversation 1 of [w_talk] was deleted
    takes the id 1 and starts without messages. *)
Lemma create_then_read_witness :
  let w := snd (delete_conversation 1 w_talk) in
  let body := ConversationBody.mk None (Some "again") None in
  let row := Conversation.mk (Some 1) (Some "again") 102 in
  exists w',
    create_conversation env_ok body w = (inr row, w') /\
    read_conversation 1 w'
      = (inr (ConversationRead.mk 1 (Some "again") 102 []), w') /\
    Earlier.read_conversation 1 w' = (inr row, w').
Proof.
  cbv zeta. eexists. split; [reflexivity|].
  destruct (create_then_read env_ok
              (ConversationBody.mk None (Some "again") None)
              (snd (delete_conversation 1 w_talk))
              (Conversation.mk (Some 1) (Some "again") 102)
              (snd (create_conversation env_ok
                      (ConversationBody.mk None (Some "again") None)
                      (snd (delete_conversation 1 w_talk)))))
    as [i [Hid [Hread Hold]]].
  - intros m cid [<-|[<-|[]]] [=].
  - reflexivity.
  - injection Hid as <-. split; [exact Hread | exact Hold].
Defined.

(** ** What a request leaves alone *)

Lemma lookup_after_delete cid other rows :
  other <> cid ->
  lookup_conversation other
    (filter (fun c => negb (opt_Z_eqb (Conversation.id c) (Some cid))) rows)
  = lookup_conversation other rows.
Proof.
  intro Hne. unfold lookup_conversation.
  induction rows as [|c rows IH]; simpl; [reflexivity|].
  destruct (opt_Z_eqb (Conversation.id c) (Some cid)) eqn:E; simpl.
  - apply opt_Z_eqb_Some in E. rewrite E. simpl.
    destruct (Z.eqb_spec cid other) as [->|_]; [contradiction|]. exact IH.
  - now rewrite IH.
Qed.

Lemma messages_of_after_delete cid other rows :
  other <> cid ->
  messages_of other (map (detach_from cid) rows) = messages_of other rows.
Proof.
  intro Hne. unfold messages_of, detach_from.
  induction rows as [|m rows IH]; simpl; [reflexivity|].
  destruct (opt_Z_eqb (Message.conversation_id m) (Some cid)) eqn:E.
  - apply opt_Z_eqb_Some in E. rewrite E. simpl.
    destruct (Z.eqb_spec cid other) as [->|_]; [contradiction|]. exact IH.
  - now rewrite IH.
Qed.

Lemma read_conversation_same_tables cid w w' :
  db_conversations w' = db_conversations w ->
  messages_of cid (db_messages w') = messages_of cid (db_messages w) ->
  fst (read_conversation cid w') = fst (read_conversation cid w).
Proof.
  intros Ec Em.
  destruct (lookup_conversation cid (db_conversations w)) as [c|] eqn:Hl.
  - rewrite (read_conversation_present cid w c Hl).
    rewrite (read_conversation_present cid w' c) by now rewrite Ec.
    cbn [fst]. now rewrite Em.
  - rewrite (read_conversation_absent cid w Hl).
    rewrite (read_conversation_absent cid w') by now rewrite Ec.
    reflexivity.
Qed.

(** X6. An exchange on one conversation changes the answer of no read of
    another conversation, whether the exchange succeeds or is a 404. *)
Theorem create_message_frame {engine : SqlEngine} env cid message other w :
  other <> cid ->
  fst (read_conversation other (snd (create_message env cid message w)))
    = fst (read_conversation other w).
Proof.
  intro Hne.
  destruct (conversation_exists_dec cid w) as [Hex|Hno].
  - rewrite (create_message_run env cid message w Hex). cbn [snd].
    apply read_conversation_same_tables; cbn [db_conversations db_messages];
      [reflexivity|].
    rewrite !messages_of_app. unfold messages_of at 2 3. cbn.
    destruct (Z.eqb_spec cid other) as [->|_]; [contradiction|].
    now rewrite !app_nil_r.
  - apply handlers_not_found in Hno.
    now rewrite (create_message_absent env cid message w Hno).
Qed.

Lemma create_message_frame_witness :
  fst (read_conversation 1
         (snd (@create_message env_ok scan_order_engine 2 hello
                 (@serve env_ok scan_order_engine
                    [PostConversation
                       (ConversationBody.mk None None None)] w_talk))))
  = fst (read_conversation 1
           (@serve env_ok scan_order_engine
              [PostConversation (ConversationBody.mk None None None)]
              w_talk)).
Proof.
  apply (@create_message_frame scan_order_engine env_ok 2 hello 1). lia.
Defined.

(** X7. Deleting one conversation changes the answer of no read of another
    conversation: the other rows and the other conversations' messages are
    left as they are. *)
Theorem delete_conversation_frame cid other w :
  other <> cid ->
  fst (read_conversation other (snd (delete_conversation cid w)))
    = fst (read_conversation other w).
Proof.
  intro Hne.
  destruct (conversation_exists_dec cid w) as [Hex|Hno].
  - rewrite (delete_conversation_run cid w Hex). cbn [snd].
    destruct (lookup_conversation other (db_conversations w)) as [c|] eqn:Hl.
    + rewrite (read_conversation_present other w c Hl).
      rewrite (read_conversation_present other _ c).
      * cbn [fst db_messages].
        now rewrite (messages_of_after_delete cid other _ Hne).
      * cbn [db_conversations]. now rewrite lookup_after_delete.
    + rewrite (read_conversation_absent other w Hl).
      rewrite read_conversation_absent; [reflexivity|].
      cbn [db_conversations]. now rewrite lookup_after_delete.
  - apply handlers_not_found in Hno.
    now rewrite (delete_conversation_absent cid w Hno).
Qed.

Lemma delete_conversation_frame_witness :
  fst (read_conversation 1 (snd (delete_conversation 2 w_shared)))
    = fst (read_conversation 1 w_shared).
Proof.
  apply (delete_conversation_frame 2 1 w_shared). lia.
Defined.

(** ** Exchanges one after the other *)

(** X8. Two exchanges in a row on an existing conversation, then a read:
    the conversation lists what it listed before followed by exactly four
    messages, the first caller's, an assistant's, the second caller's and an
    assistant's, in that order. *)
Theorem two_exchanges_then_read {engine : SqlEngine} env cid m1 m2 w :
  conversation_exists cid w ->
  exists c u1 a1 u2 a2,
    fst (read_conversation cid
           (snd (create_message env cid m2
                   (snd (create_message env cid m1 w))))) = inr c /\
    ConversationRead.messages c
      = messages_of cid (db_messages w) ++ [u1; a1; u2; a2] /\
    Message.role u1 = MessageCreate.role m1 /\
    Message.content u1 = MessageCreate.content m1 /\
    Message.role a1 = "assistant" /\
    Message.role u2 = MessageCreate.role m2 /\
    Message.content u2 = MessageCreate.content m2 /\
    Message.role a2 = "assistant".
Proof.
  intro Hex.
  rewrite (create_message_run env cid m1 w Hex). cbn [snd].
  set (w1 := {| db_conversations := db_conversations w;
                db_messages := _; ticks := _; llm_calls := _;
                stdout := _ |}).
  assert (Hex1 : conversation_exists cid w1) by exact Hex.
  rewrite (create_message_run env cid m2 w1 Hex1). cbn [snd].
  destruct (lookup_conversation_exists cid w Hex) as [c Hc].
  rewrite (read_conversation_present cid _ c) by exact Hc.
  eexists. exists (user_row env cid m1 w), (assistant_row env cid m1 w),
    (user_row env cid m2 w1), (assistant_row env cid m2 w1).
  split; [reflexivity|]. cbn [ConversationRead.messages db_messages].
  split; [|repeat split].
  subst w1. cbn [db_messages].
  rewrite !messages_of_app. unfold messages_of at 2 3 4 5. cbn.
  rewrite Z.eqb_refl. now rewrite <- !app_assoc.
Qed.

Lemma two_exchanges_then_read_witness :
  exists c u1 a1 u2 a2,
    fst (read_conversation 1
           (snd (@create_message env_ok scan_order_engine 1 again
                   (snd (@create_message env_ok scan_order_engine 1 hello
                           w_fresh))))) = inr c /\
    ConversationRead.messages c
      = messages_of 1 (db_messages w_fresh) ++ [u1; a1; u2; a2] /\
    Message.role u1 = "user" /\
    Message.content u1 = "hello" /\
    Message.role a1 = "assistant" /\
    Message.role u2 = "user" /\
    Message.content u2 = "again" /\
    Message.role a2 = "assistant".
Proof.
  apply (@two_exchanges_then_read scan_order_engine env_ok 1 hello again
           w_fresh).
  exact w_fresh_has_1.
Defined.

(** X9. The second of two exchanges in a row on a conversation hands the
    model client a history two entries longer than the first did, and the
    reply stored by the first exchange is one of its entries. *)
Theorem second_exchange_history {engine : SqlEngine} env cid m1 m2 w :
  conversation_exists cid w ->
  exists reply w1 w2 h1 h2,
    create_message env cid m1 w = (inr reply, w1) /\
    w2 = snd (create_message env cid m2 w1) /\
    llm_calls w2 = llm_calls w ++ [h1; h2] /\
    List.length h2 = (List.length h1 + 2)%nat /\
    In (LlmMessage.mk "assistant" (Message.content reply)) h2 /\
    In (LlmMessage.mk (MessageCreate.role m1) (MessageCreate.content m1)) h2 /\
    In (LlmMessage.mk (MessageCreate.role m2) (MessageCreate.content m2)) h2.
Proof.
  intro Hex.
  pose (w1 := snd (create_message env cid m1 w)).
  pose proof (create_message_run env cid m1 w Hex) as Hrun1.
  assert (Hw1 : create_message env cid m1 w
                = (inr (assistant_row env cid m1 w), w1))
    by (unfold w1; now rewrite Hrun1).
  assert (Hm1 : db_messages w1
                = db_messages w ++ [user_row env cid m1 w;
                                    assistant_row env cid m1 w])
    by (unfold w1; rewrite Hrun1; cbn [snd db_messages];
        now rewrite <- app_assoc).
  assert (Hc1 : db_conversations w1 = db_conversations w)
    by (unfold w1; now rewrite Hrun1).
  assert (Hl1 : llm_calls w1
                = llm_calls w ++ [exchange_history env cid m1 w])
    by (unfold w1; now rewrite Hrun1).
  assert (Hex1 : conversation_exists cid w1)
    by (unfold conversation_exists; now rewrite Hc1).
  clearbody w1.
  exists (assistant_row env cid m1 w), w1,
    (snd (create_message env cid m2 w1)),
    (exchange_history env cid m1 w), (exchange_history env cid m2 w1).
  split; [exact Hw1|]. split; [reflexivity|].
  rewrite (create_message_run env cid m2 w1 Hex1). cbn [snd llm_calls].
  split; [rewrite Hl1; now rewrite <- app_assoc|].
  assert (Hrows : messages_of cid (db_messages w1 ++ [user_row env cid m2 w1])
                  = messages_of cid (db_messages w)
                      ++ [user_row env cid m1 w; assistant_row env cid m1 w;
                          user_row env cid m2 w1]).
  { rewrite Hm1, !messages_of_app.
    unfold messages_of at 2 3. cbn. rewrite Z.eqb_refl.
    now rewrite <- !app_assoc. }
  assert (Hrows0 : messages_of cid (db_messages w ++ [user_row env cid m1 w])
                   = messages_of cid (db_messages w)
                       ++ [user_row env cid m1 w]).
  { rewrite messages_of_app. unfold messages_of at 2. cbn.
    now rewrite Z.eqb_refl. }
  assert (Hin : forall m,
            In m [user_row env cid m1 w; assistant_row env cid m1 w;
                  user_row env cid m2 w1] ->
            In (llm_message_of m) (exchange_history env cid m2 w1)).
  { intros m Hm. unfold exchange_history, exchange_rows. rewrite Hrows.
    apply in_map.
    eapply Permutation_in; [apply order_by_permutation|].
    apply in_or_app. now right. }
  split.
  { unfold exchange_history, exchange_rows. rewrite !length_map.
    rewrite Hrows, Hrows0.
    rewrite <- !(Permutation_length (order_by_permutation _)).
    rewrite !length_app. cbn. lia. }
  split; [apply (Hin (assistant_row env cid m1 w)); right; now left|].
  split; [apply (Hin (user_row env cid m1 w)); now left|].
  apply (Hin (user_row env cid m2 w1)). right. right. now left.
Qed.

Lemma second_exchange_history_witness :
  exists reply w1 w2 h1 h2,
    @create_message env_ok scan_order_engine 1 hello w_fresh
      = (inr reply, w1) /\
    w2 = snd (@create_message env_ok scan_order_engine 1 again w1) /\
    llm_calls w2 = llm_calls w_fresh ++ [h1; h2] /\
    List.length h2 = (List.length h1 + 2)%nat /\
    In (LlmMessage.mk "assistant" (Message.content reply)) h2 /\
    In (LlmMessage.mk "user" "hello") h2 /\
    In (LlmMessage.mk "user" "again") h2.
Proof.
  apply (@second_exchange_history scan_order_engine env_ok 1 hello again
           w_fresh).
  exact w_fresh_has_1.
Defined.

(** X10. When the model client returns a text, that text is the content of
    the assistant message that is stored and returned, and nothing is
    printed. *)
Theorem create_message_reply_stored {engine : SqlEngine} env cid message w
    text :
  conversation_exists cid w ->
  exchange_outcome env cid message w = Generated text ->
  exists reply w',
    create_message env cid message w = (inr reply, w') /\
    Message.content reply = text /\
    Message.role reply = "assistant" /\
    Message.conversation_id reply = Some cid /\
    In reply (db_messages w') /\
    stdout w' = stdout w.
Proof.
  intros Hex Hgen.
  eexists. eexists. split; [apply (create_message_run env cid message w Hex)|].
  cbn [db_messages stdout]. unfold assistant_row. rewrite Hgen. cbn.
  repeat split. apply in_or_app. right. now left.
Qed.

Lemma create_message_reply_stored_witness :
  exists reply w',
    @create_message env_ok scan_order_engine 1 hello w_fresh
      = (inr reply, w') /\
    Message.content reply = "hi" /\
    Message.role reply = "assistant" /\
    Message.conversation_id reply = Some 1 /\
    In reply (db_messages w') /\
    stdout w' = stdout w_fresh.
Proof.
  apply (@create_message_reply_stored scan_order_engine env_ok 1 hello
           w_fresh "hi").
  - exact w_fresh_has_1.
  - reflexivity.
Defined.

(** ** Pages of the listing *)

Lemma firstn_sum {A} (a b : nat) (l : list A) :
  firstn (a + b) l = firstn a l ++ firstn b (skipn a l).
Proof.
  revert l. induction a as [|a IH]; intro l; simpl; [reflexivity|].
  destruct l as [|x l]; simpl.
  - now rewrite firstn_nil.
  - now rewrite IH.
Qed.

(** X11. For an offset and page sizes that are not negative, a page
    followed by the page that starts where it ends is the page of their
    joint size: consecutive pages neither drop nor repeat a conversation.
    A page that starts at or past the end of the table is empty, and so is
    a page of size zero. *)
Theorem read_conversations_pages offset size1 size2 w :
  0 <= offset -> 0 <= size1 -> 0 <= size2 ->
  exists page1 page2 both,
    read_conversations offset size1 w = (inr page1, w) /\
    read_conversations (offset + size1) size2 w = (inr page2, w) /\
    read_conversations offset (size1 + size2) w = (inr both, w) /\
    page1 ++ page2 = both /\
    (Z.of_nat (List.length (db_conversations w)) <= offset -> both = []) /\
    (size1 = 0 -> page1 = []).
Proof.
  intros Ho H1 H2.
  eexists. eexists. eexists.
  split; [reflexivity|]. split; [reflexivity|]. split; [reflexivity|].
  unfold sql_limit, sql_offset.
  destruct (Z.ltb_spec size1 0); [lia|].
  destruct (Z.ltb_spec size2 0); [lia|].
  destruct (Z.ltb_spec (size1 + size2) 0); [lia|].
  rewrite !Z2Nat.inj_add by lia.
  split; [|split].
  - rewrite firstn_sum. f_equal. now rewrite skipn_skipn, Nat.add_comm.
  - intro Hend. rewrite skipn_all2 by lia. apply firstn_nil.
  - intros ->. reflexivity.
Qed.

Lemma read_conversations_pages_witness :
  exists page1 page2 both,
    read_conversations 0 1 w_shared = (inr page1, w_shared) /\
    read_conversations (0 + 1) 1 w_shared = (inr page2, w_shared) /\
    read_conversations 0 (1 + 1) w_shared = (inr both, w_shared) /\
    page1 ++ page2 = both /\
    (Z.of_nat (List.length (db_conversations w_shared)) <= 0 -> both = []) /\
    (1 = 0 -> page1 = []).
Proof.
  apply (read_conversations_pages 0 1 1 w_shared); lia.
Defined.

(** ** The two revisions of the read handler *)

(** X12. The earlier and the later [read_conversation] agree: they answer
    404 "Conversation not found" for the same ids, neither changes the
    store, and for an id that is found the later one returns the id, title
    and [created_at] of the row the earlier one returns, with the messages of
    the conversation added. *)
Theorem read_conversation_revisions cid w :
  (exists c,
     Earlier.read_conversation cid w = (inr c, w) /\
     Conversation.id c = Some cid /\
     In c (db_conversations w) /\
     read_conversation cid w
       = (inr (ConversationRead.mk cid (Conversation.title c)
                 (Conversation.created_at c)
                 (messages_of cid (db_messages w))), w)) \/
  (Earlier.read_conversation cid w
     = (inl (HTTPException 404 "Conversation not found"), w) /\
   read_conversation cid w
     = (inl (HTTPException 404 "Conversation not found"), w) /\
   ~ conversation_exists cid w).
Proof.
  destruct (lookup_conversation cid (db_conversations w)) as [c|] eqn:Hl.
  - left. exists c.
    destruct (lookup_conversation_Some _ _ _ Hl) as [Hin Hid].
    split.
    { unfold Earlier.read_conversation, bind, get_conversation.
      now rewrite Hl. }
    split; [exact Hid|]. split; [exact Hin|].
    now apply read_conversation_present.
  - right. split.
    { unfold Earlier.read_conversation, bind, get_conversation.
      now rewrite Hl. }
    split; [now apply read_conversation_absent|].
    now apply lookup_conversation_None.
Qed.

(** ** After a delete, after an insert *)

(** X13. Once a conversation has been deleted its id is unknown to every
    handler: reading it (in either revision), deleting it again and
    exchanging on it are all 404 "Conversation not found", and none of the
    three changes the store. *)
Theorem deleted_is_gone {engine : SqlEngine} env cid message w :
  conversation_exists cid w ->
  exists w',
    delete_conversation cid w = (inr {| ok := true |}, w') /\
    delete_conversation cid w'
      = (inl (HTTPException 404 "Conversation not found"), w') /\
    create_message env cid message w'
      = (inl (HTTPException 404 "Conversation not found"), w') /\
    read_conversation cid w'
      = (inl (HTTPException 404 "Conversation not found"), w') /\
    Earlier.read_conversation cid w'
      = (inl (HTTPException 404 "Conversation not found"), w').
Proof.
  intro Hex. eexists.
  split; [apply (delete_conversation_run cid w Hex)|].
  match goal with |- delete_conversation cid ?w1 = _ /\ _ =>
    assert (Hl : lookup_conversation cid (db_conversations w1) = None)
  end.
  { apply lookup_conversation_None. cbn [db_conversations].
    apply deleted_conversation_absent. }
  split; [now apply delete_conversation_absent|].
  split; [now apply create_message_absent|].
  split; [now apply read_conversation_absent|].
  unfold Earlier.read_conversation, bind, get_conversation. now rewrite Hl.
Qed.

Lemma deleted_is_gone_witness :
  exists w',
    delete_conversation 1 w_talk = (inr {| ok := true |}, w') /\
    delete_conversation 1 w'
      = (inl (HTTPException 404 "Conversation not found"), w') /\
    @create_message env_ok scan_order_engine 1 hello w'
      = (inl (HTTPException 404 "Conversation not found"), w') /\
    read_conversation 1 w'
      = (inl (HTTPException 404 "Conversation not found"), w') /\
    Earlier.read_conversation 1 w'
      = (inl (HTTPException 404 "Conversation not found"), w').
Proof.
  apply (@deleted_is_gone scan_order_engine env_ok 1 hello w_talk).
  exact w_talk_has_1.
Defined.

(** What a body whose id is taken is refused with. *)
Definition refusal (body : ConversationBody.t) : Exn :=
  match ConversationBody.created_at body with
  | Some _ => StatementError
  | None => IntegrityError
  end.

Lemma create_conversation_clash env body w i :
  ConversationBody.id body = Some i ->
  conversation_exists i w ->
  fst (create_conversation env body w) = inl (refusal body).
Proof.
  intros Hid Hex. apply id_clash_iff in Hex.
  destruct body as [bid btitle bcreated]. cbn in Hid. subst bid.
  unfold create_conversation, conversation_of_body, bind_conversation, bind,
    now, ret, add_commit_refresh_conversation, refusal.
  cbn [ConversationBody.id ConversationBody.title ConversationBody.created_at].
  destruct bcreated as [raw|]; [reflexivity|].
  cbn [ConversationArg.id ConversationArg.title ConversationArg.created_at
       Conversation.id db_conversations].
  now rewrite Hex.
Qed.

(** X14. After a conversation has been created, a second body that carries
    the id of the stored row is refused, whatever its title is: with
    [IntegrityError] when it carries no [created_at], and with
    [StatementError] when it does.  Both tables stay as the first request
    left them: an id is never given to two conversations. *)
Theorem create_conversation_id_taken env body w row w' body2 :
  create_conversation env body w = (inr row, w') ->
  ConversationBody.id body2 = Conversation.id row ->
  fst (create_conversation env body2 w') = inl (refusal body2) /\
  (ConversationBody.created_at body2 = None ->
   fst (create_conversation env body2 w') = inl IntegrityError) /\
  db_conversations (snd (create_conversation env body2 w'))
    = db_conversations w' /\
  db_messages (snd (create_conversation env body2 w')) = db_messages w'.
Proof.
  intros Hrun Hsame.
  destruct (create_conversation_ok _ _ _ _ _ Hrun)
    as [i [Hid [_ [_ [_ [Hc _]]]]]].
  assert (Hex : conversation_exists i w').
  { unfold conversation_exists. rewrite Hc.
    eapply Permutation_in;
      [apply Permutation_map, insert_conversation_perm|].
    left. exact Hid. }
  assert (Hfail : fst (create_conversation env body2 w')
                  = inl (refusal body2)).
  { apply (create_conversation_clash env body2 w' i); [|exact Hex].
    now rewrite Hsame. }
  destruct (create_conversation_tables env body2 w') as [Hm [_ [_ Hkeep]]].
  split; [exact Hfail|].
  split; [intro Hnone; rewrite Hfail; unfold refusal; now rewrite Hnone|].
  split; [|exact Hm].
  apply Hkeep. eexists. exact Hfail.
Qed.

(** Conversation 2 is created in [w_talk]; a second body asking for id 2,
    with another title, is refused. *)
Lemma create_conversation_id_taken_witness :
  let body := ConversationBody.mk None (Some "second") None in
  let body2 := ConversationBody.mk (Some 2) (Some "other") None in
  let w' := snd (create_conversation env_ok body w_talk) in
  fst (create_conversation env_ok body2 w') = inl (refusal body2) /\
  (ConversationBody.created_at body2 = None ->
   fst (create_conversation env_ok body2 w') = inl IntegrityError) /\
  db_conversations (snd (create_conversation env_ok body2 w'))
    = db_conversations w' /\
  db_messages (snd (create_conversation env_ok body2 w')) = db_messages w'.
Proof.
  cbv zeta.
  apply (create_conversation_id_taken env_ok
           (ConversationBody.mk None (Some "second") None) w_talk
           (Conversation.mk (Some 2) (Some "second") 102)).
  - reflexivity.
  - reflexivity.
Defined.

(** ** The first exchange of a new conversation *)

(** X15. In a store whose messages name only conversations of the store,
    the first exchange on a conversation that has just been created hands
    the model client a history of one entry, the caller's message: no message
    of another conversation, or of a deleted conversation that had the same
    id, reaches the model client. *)
Theorem first_exchange_history {engine : SqlEngine} env body w row w' i
    message :
  attached_to_existing w ->
  create_conversation env body w = (inr row, w') ->
  Conversation.id row = Some i ->
  exists reply w'',
    create_message env i message w' = (inr reply, w'') /\
    llm_calls w'' =
      llm_calls w ++ [[LlmMessage.mk (MessageCreate.role message)
                                     (MessageCreate.content message)]].
Proof.
  intros Hatt Hrun Hrow.
  destruct (create_conversation_ok _ _ _ _ _ Hrun)
    as [j [Hid [Hfree [_ [_ [Hc [Hm [Hl _]]]]]]]].
  rewrite Hrow in Hid. injection Hid as <-.
  assert (Hex : conversation_exists i w').
  { unfold conversation_exists. rewrite Hc.
    eapply Permutation_in;
      [apply Permutation_map, insert_conversation_perm|].
    left. exact Hrow. }
  eexists. eexists.
  split; [apply (create_message_run env i message w' Hex)|].
  cbn [llm_calls]. rewrite Hl. f_equal. f_equal.
  unfold exchange_history, exchange_rows.
  rewrite messages_of_app, Hm.
  rewrite messages_of_none
    by (intros m Hin Hcid; apply Hfree; now apply (Hatt m)).
  unfold messages_of. cbn [filter user_row Message.conversation_id opt_Z_eqb].
  rewrite Z.eqb_refl. cbn [app].
  match goal with |- map _ (order_by_created_at [?u]) = _ =>
    rewrite (Permutation_length_1_inv (order_by_permutation [u]))
  end.
  reflexivity.
Qed.

Lemma first_exchange_history_witness :
  let w := snd (delete_conversation 1 w_talk) in
  let body := ConversationBody.mk None (Some "again") None in
  exists reply w'',
    @create_message env_ok scan_order_engine 1 hello
       (snd (create_conversation env_ok body w)) = (inr reply, w'') /\
    llm_calls w'' = llm_calls w ++ [[LlmMessage.mk "user" "hello"]].
Proof.
  cbv zeta.
  apply (@first_exchange_history scan_order_engine env_ok
           (ConversationBody.mk None (Some "again") None)
           (snd (delete_conversation 1 w_talk))
           (Conversation.mk (Some 1) (Some "again") 102)).
  - intros m cid [<-|[<-|[]]] [=].
  - reflexivity.
  - reflexivity.
Defined.

(** The pages of [w_shared], and the read of conversation 1 after
    conversation 2 was deleted, evaluated. *)
Example listing_and_frame_on_w_shared :
  fst (read_conversations 0 1 w_shared)
    = inr [Conversation.mk (Some 1) (Some "first") 0] /\
  fst (read_conversations 1 1 w_shared)
    = inr [Conversation.mk (Some 2) (Some "second") 50] /\
  fst (read_conversations 3 5 w_shared) = inr [] /\
  map Conversation.id
      (db_conversations (snd (delete_conversation 2 w_shared)))
    = [Some 1; Some 3] /\
  fst (read_conversation 1 (snd (delete_conversation 2 w_shared)))
    = inr (ConversationRead.mk 1 (Some "first") 0
             [Message.mk (Some 1) (Some 1) "hello" "user" 100;
              Message.mk (Some 2) (Some 1) "hi" "assistant" 101]).
Proof. repeat split. Qed.
